(** * Prompt-Engineering-Challenges: progress store, image compositor,
      scoring client and session service

    A shallow embedding of the TypeScript sources

    - [App.tsx] (progress loading, default initialisation, persistence),
    - the analysis service, a module of [services/] ([stitchImages],
      [analyzeImages]),
    - [services/authService.ts] ([login], [signup], [logout],
      [getCurrentUser]),

    together with the statements of the specification that concern them.

    Conventions.  A JavaScript string is modelled by the Rocq [string] of
    its UTF-8 bytes.  JavaScript numbers are modelled by the exact rational
    value of their literal ([Q]); the rounding to IEEE doubles is not
    modelled, no statement below depends on it.  A JavaScript exception is a value of type
    [thrown]; code that may throw lives in the monad [M], which threads the
    mutable state of the module explicitly. *)

From Stdlib Require Import ZArith QArith String Ascii List Bool Lia Sorted.
From stdpp Require Import base option list gmap strings.

Set Warnings "-register-all,-clear-no-such-hyp".

Local Open Scope string_scope.
Local Open Scope list_scope.

(** ** Characters and strings *)

Module Str.

Definition chars := list ascii.

Definition code (c : ascii) : N := N_of_ascii c.

(** The characters [U+0022] and [U+005C], given by their codes. *)
Definition dquote : ascii := ascii_of_N 34.
Definition backslash : ascii := ascii_of_N 92.

Definition of_chars (cs : chars) : string := string_of_list_ascii cs.
Definition to_chars (s : string) : chars := list_ascii_of_string s.

(** [s.startsWith(p)] *)
Fixpoint startsWith (s p : string) : bool :=
  match p, s with
  | EmptyString, _ => true
  | String a p', String b s' => Ascii.eqb a b && startsWith s' p'
  | String _ _, EmptyString => false
  end.

(** [s.split(sep)] for a one-character separator: the pieces between the
    separators, in order; never the empty list. *)
Fixpoint split_chars (sep : ascii) (cur : chars) (cs : chars) : list string :=
  match cs with
  | [] => [of_chars (rev cur)]
  | c :: rest =>
      if Ascii.eqb c sep
      then of_chars (rev cur) :: split_chars sep [] rest
      else split_chars sep (c :: cur) rest
  end.

Definition split (sep : ascii) (s : string) : list string :=
  split_chars sep [] (to_chars s).

(** The white space that [String.prototype.trim] removes: the characters
    of [WhiteSpace] and [LineTerminator], here as their UTF-8 bytes.  One
    byte: TAB, LF, VT, FF, CR and SPACE. *)
Definition is_space1 (c : ascii) : bool :=
  let n := code c in
  ((9 <=? n) && (n <=? 13))%N || (n =? 32)%N.

(** Two bytes: [U+00A0] (C2 A0). *)
Definition is_space2 (c1 c2 : ascii) : bool :=
  ((code c1 =? 194) && (code c2 =? 160))%N.

(** Three bytes: [U+1680] (E1 9A 80); [U+2000] to [U+200A], [U+2028],
    [U+2029] and [U+202F] (E2 80 80 to 8A, A8, A9, AF); [U+205F]
    (E2 81 9F); [U+3000] (E3 80 80); [U+FEFF] (EF BB BF). *)
Definition is_space3 (c1 c2 c3 : ascii) : bool :=
  let '(a, b, c) := (code c1, code c2, code c3) in
  ((a =? 225) && (b =? 154) && (c =? 128)
   || (a =? 226) && (b =? 128)
      && (((128 <=? c) && (c <=? 138)) || (c =? 168) || (c =? 169)
          || (c =? 175))
   || (a =? 226) && (b =? 129) && (c =? 159)
   || (a =? 227) && (b =? 128) && (c =? 128)
   || (a =? 239) && (b =? 187) && (c =? 191))%N.

(** The characters at the front of [cs], read with [sp2] and [sp3], are
    dropped as long as they are white space. *)
Fixpoint drop_while_space (sp2 : ascii -> ascii -> bool)
    (sp3 : ascii -> ascii -> ascii -> bool) (cs : chars) : chars :=
  match cs with
  | [] => []
  | c1 :: rest1 =>
      if is_space1 c1 then drop_while_space sp2 sp3 rest1
      else
        match rest1 with
        | [] => cs
        | c2 :: rest2 =>
            if sp2 c1 c2 then drop_while_space sp2 sp3 rest2
            else
              match rest2 with
              | [] => cs
              | c3 :: rest3 =>
                  if sp3 c1 c2 c3 then drop_while_space sp2 sp3 rest3
                  else cs
              end
        end
  end.

(** White space dropped at the front. *)
Definition drop_space (cs : chars) : chars :=
  drop_while_space is_space2 is_space3 cs.

(** White space dropped at the front of a reversed text, where the bytes
    of a character come last byte first. *)
Definition drop_space_rev (cs : chars) : chars :=
  drop_while_space (fun c2 c1 => is_space2 c1 c2)
                   (fun c3 c2 c1 => is_space3 c1 c2 c3) cs.

(** [s.trim()] *)
Definition trim (s : string) : string :=
  of_chars (rev (drop_space_rev (rev (drop_space (to_chars s))))).

(** The bytes of one white space character. *)
Definition white_space (u : chars) : bool :=
  match u with
  | [c1] => is_space1 c1
  | [c1; c2] => is_space2 c1 c2
  | [c1; c2; c3] => is_space3 c1 c2 c3
  | _ => false
  end.

(** A character of ASCII that is not white space. *)
Definition visible_ascii (c : ascii) : bool :=
  (code c <? 128)%N && negb (is_space1 c).

(** [c.toUpperCase()] for a character of ASCII: the letters [a]-[z]
    change, the others do not. *)
Definition upper (c : ascii) : ascii :=
  let n := code c in
  if ((97 <=? n) && (n <=? 122))%N then ascii_of_N (n - 32) else c.

(** [s.charAt(0).toUpperCase() + s.slice(1)].  The first character is
    found from its first byte.  For a character of ASCII the upper case is
    computed; for another character of the basic plane (two or three
    bytes) it is what [toUpperCase], the case mapping of the engine, makes
    of it, which may be several characters.  For a character outside the
    basic plane (four bytes), [charAt(0)] is the first half of a surrogate
    pair, which has no upper case: the text is unchanged. *)
Definition capitalize (toUpperCase : string -> string) (s : string)
  : string :=
  match to_chars s with
  | [] => s
  | c1 :: rest1 =>
      let n := code c1 in
      if (n <? 128)%N then of_chars (upper c1 :: rest1)
      else if ((194 <=? n) && (n <=? 223))%N then
        match rest1 with
        | c2 :: rest2 => toUpperCase (of_chars [c1; c2]) +:+ of_chars rest2
        | [] => s
        end
      else if ((224 <=? n) && (n <=? 239))%N then
        match rest1 with
        | c2 :: c3 :: rest3 =>
            toUpperCase (of_chars [c1; c2; c3]) +:+ of_chars rest3
        | _ => s
        end
      else s
  end.

Definition join (sep : string) (l : list string) : string :=
  String.concat sep l.

End Str.

(** ** JSON values, [JSON.parse] and [JSON.stringify] *)

Module JSON.

Import Str.

Inductive json : Type :=
  | JNull
  | JBool (b : bool)
  | JNumber (q : Q)
  | JString (s : string)
  | JArray (items : list json)
  | JObject (members : list (string * json)).

(** [o[k] = v] on the own properties of an object: an existing key keeps
    its place and takes the new value, a new key goes last. *)
Fixpoint obj_set {A} (k : string) (v : A) (members : list (string * A))
  : list (string * A) :=
  match members with
  | [] => [(k, v)]
  | (k', v') :: rest =>
      if String.eqb k' k then (k, v) :: rest
      else (k', v') :: obj_set k v rest
  end.

(** The own property [k] of an object, if any. *)
Fixpoint obj_get {A} (k : string) (members : list (string * A)) : option A :=
  match members with
  | [] => None
  | (k', v) :: rest => if String.eqb k' k then Some v else obj_get k rest
  end.

(** *** Lexical analysis *)

Inductive token : Type :=
  | TLBrace | TRBrace | TLBracket | TRBracket | TColon | TComma
  | TTrue | TFalse | TNull
  | TString (s : string)
  | TNumber (q : Q).

Definition is_ws (c : ascii) : bool :=
  let n := code c in
  (n =? 32)%N || (n =? 9)%N || (n =? 10)%N || (n =? 13)%N.

Definition is_digit (c : ascii) : bool :=
  let n := code c in ((48 <=? n) && (n <=? 57))%N.

Definition digit_val (c : ascii) : Z := Z.of_N (code c) - 48.

Definition hex_val (c : ascii) : option N :=
  let n := code c in
  if ((48 <=? n) && (n <=? 57))%N then Some (n - 48)%N
  else if ((97 <=? n) && (n <=? 102))%N then Some (n - 87)%N
  else if ((65 <=? n) && (n <=? 70))%N then Some (n - 55)%N
  else None.

(** Characters that may continue a number literal. *)
Definition is_number_char (c : ascii) : bool :=
  is_digit c || Ascii.eqb c "-" || Ascii.eqb c "+" || Ascii.eqb c "."
  || Ascii.eqb c "e" || Ascii.eqb c "E".

(** The UTF-8 bytes of a code unit given by a [\uXXXX] escape (the two
    halves of a surrogate pair are encoded one by one). *)
Definition utf8 (n : N) : chars :=
  (if n <? 128 then [ascii_of_N n]
   else if n <? 2048 then
     [ascii_of_N (192 + n / 64); ascii_of_N (128 + n mod 64)]
   else
     [ascii_of_N (224 + n / 4096); ascii_of_N (128 + (n / 64) mod 64);
      ascii_of_N (128 + n mod 64)])%N.

Fixpoint digits (acc : Z) (cs : chars) : Z * nat * chars :=
  match cs with
  | c :: rest =>
      if is_digit c then
        let '(v, n, r) := digits (acc * 10 + digit_val c) rest in (v, S n, r)
      else (acc, 0%nat, cs)
  | [] => (acc, 0%nat, [])
  end.

(** The grammar of a JSON number: an optional minus sign; an integer part
    that is either the single digit 0 or a non-empty run of digits not
    starting with 0; an optional fraction, a dot and one or more digits; an
    optional exponent, e or E, an optional sign and one or more digits. *)
Definition number_of_chars (cs : chars) : option Q :=
  let '(neg, cs) :=
    match cs with
    | c :: rest => if Ascii.eqb c "-" then (true, rest) else (false, cs)
    | [] => (false, cs)
    end in
  let leading_zero :=
    match cs with c :: _ => Ascii.eqb c "0" | [] => false end in
  let '(ip, ilen, cs) := digits 0 cs in
  if (ilen =? 0)%nat || (leading_zero && negb (ilen =? 1)%nat) then None
  else
    let frac :=
      match cs with
      | c :: rest =>
          if Ascii.eqb c "." then
            let '(m, flen, r) := digits ip rest in
            if (flen =? 0)%nat then None else Some (m, Z.of_nat flen, r)
          else Some (ip, 0%Z, cs)
      | [] => Some (ip, 0%Z, cs)
      end in
    match frac with
    | None => None
    | Some (m, flen, cs) =>
        let expo :=
          match cs with
          | [] => Some 0%Z
          | c :: rest =>
              if Ascii.eqb c "e" || Ascii.eqb c "E" then
                let '(eneg, rest) :=
                  match rest with
                  | s :: r =>
                      if Ascii.eqb s "-" then (true, r)
                      else if Ascii.eqb s "+" then (false, r)
                      else (false, rest)
                  | [] => (false, rest)
                  end in
                let '(e, elen, r) := digits 0 rest in
                match r with
                | [] => if (elen =? 0)%nat then None
                        else Some (if eneg then - e else e)%Z
                | _ :: _ => None
                end
              else None
          end in
        match expo with
        | None => None
        | Some e =>
            let m := (if neg then - m else m)%Z in
            Some (Qred (inject_Z m * (10 # 1) ^ (e - flen)))
        end
    end.

(** The lexer reads one character at a time; [mode] says what it is in the
    middle of. *)
Inductive mode : Type :=
  | Normal
  | InString (acc : chars)             (* reversed contents so far *)
  | InEscape (acc : chars)             (* just after a backslash *)
  | InUnicode (acc : chars) (hex : list N)  (* after [\u], digits so far *)
  | InNumber (acc : chars).            (* reversed literal so far *)

Definition close_number (acc : chars) : option token :=
  TNumber <$> number_of_chars (rev acc).

Definition punctuation (c : ascii) : option token :=
  if Ascii.eqb c "{" then Some TLBrace
  else if Ascii.eqb c "}" then Some TRBrace
  else if Ascii.eqb c "[" then Some TLBracket
  else if Ascii.eqb c "]" then Some TRBracket
  else if Ascii.eqb c ":" then Some TColon
  else if Ascii.eqb c "," then Some TComma
  else None.

Fixpoint lex (m : mode) (cs : chars) {struct cs} : option (list token) :=
  match m, cs with
  | Normal, [] => Some []
  | Normal, c :: rest =>
      if is_ws c then lex Normal rest
      else match punctuation c with
      | Some t => cons t <$> lex Normal rest
      | None =>
      if Ascii.eqb c dquote then lex (InString []) rest
      else if is_digit c || Ascii.eqb c "-" then lex (InNumber [c]) rest
      else
        match cs with
        | "t" :: "r" :: "u" :: "e" :: rest' =>
            cons TTrue <$> lex Normal rest'
        | "f" :: "a" :: "l" :: "s" :: "e" :: rest' =>
            cons TFalse <$> lex Normal rest'
        | "n" :: "u" :: "l" :: "l" :: rest' =>
            cons TNull <$> lex Normal rest'
        | _ => None
        end%char
      end
  | InString _, [] => None
  | InString acc, c :: rest =>
      if Ascii.eqb c dquote
      then cons (TString (of_chars (rev acc))) <$> lex Normal rest
      else if Ascii.eqb c backslash then lex (InEscape acc) rest
      else if (code c <? 32)%N then None
      else lex (InString (c :: acc)) rest
  | InEscape _, [] => None
  | InEscape acc, c :: rest =>
      if Ascii.eqb c dquote || Ascii.eqb c backslash || Ascii.eqb c "/"
      then lex (InString (c :: acc)) rest
      else if Ascii.eqb c "b" then lex (InString (ascii_of_N 8 :: acc)) rest
      else if Ascii.eqb c "f" then lex (InString (ascii_of_N 12 :: acc)) rest
      else if Ascii.eqb c "n" then lex (InString (ascii_of_N 10 :: acc)) rest
      else if Ascii.eqb c "r" then lex (InString (ascii_of_N 13 :: acc)) rest
      else if Ascii.eqb c "t" then lex (InString (ascii_of_N 9 :: acc)) rest
      else if Ascii.eqb c "u" then lex (InUnicode acc []) rest
      else None
  | InUnicode _ _, [] => None
  | InUnicode acc hex, c :: rest =>
      match hex_val c, hex with
      | None, _ => None
      | Some d, [h1; h2; h3] =>
          let n := (((h1 * 16 + h2) * 16 + h3) * 16 + d)%N in
          lex (InString (rev (utf8 n) ++ acc)) rest
      | Some d, _ => lex (InUnicode acc (hex ++ [d])) rest
      end
  | InNumber acc, [] => (fun t => [t]) <$> close_number acc
  | InNumber acc, c :: rest =>
      if is_number_char c then lex (InNumber (c :: acc)) rest
      else
        (* the literal ends here; only white space or punctuation may
           follow a number in a JSON text *)
        match close_number acc, lex Normal rest with
        | Some t, Some ts =>
            if is_ws c then Some (t :: ts)
            else (fun p => t :: p :: ts) <$> punctuation c
        | _, _ => None
        end
  end.

(** *** Syntactic analysis

    A pushdown automaton over the tokens.  A frame of the stack is an array
    or an object under construction; the state says what may come next. *)

Inductive frame : Type :=
  | FArray (items : list json)
  | FObject (members : list (string * json)) (key : option string).

Inductive state : Type :=
  | SValue          (* a value *)
  | SValueOrClose   (* just after an opening bracket: a value or the end *)
  | SAfterElement   (* in an array: a comma or the end *)
  | SKeyOrClose     (* just after an opening brace: a key or the end *)
  | SKey            (* in an object after a comma: a key *)
  | SColon          (* after a key *)
  | SAfterMember    (* in an object: a comma or the end *)
  | SDone (v : json).

(** A complete value goes to the frame on top of the stack.  A repeated key
    of an object takes the later value. *)
Definition deliver (v : json) (stack : list frame)
  : option (state * list frame) :=
  match stack with
  | [] => Some (SDone v, [])
  | FArray items :: st => Some (SAfterElement, FArray (items ++ [v]) :: st)
  | FObject members (Some k) :: st =>
      Some (SAfterMember, FObject (obj_set k v members) None :: st)
  | FObject _ None :: _ => None
  end.

Definition value_token (t : token) (stack : list frame)
  : option (state * list frame) :=
  match t with
  | TLBracket => Some (SValueOrClose, FArray [] :: stack)
  | TLBrace => Some (SKeyOrClose, FObject [] None :: stack)
  | TTrue => deliver (JBool true) stack
  | TFalse => deliver (JBool false) stack
  | TNull => deliver JNull stack
  | TString s => deliver (JString s) stack
  | TNumber q => deliver (JNumber q) stack
  | _ => None
  end.

Definition close_array (stack : list frame) : option (state * list frame) :=
  match stack with
  | FArray items :: st => deliver (JArray items) st
  | _ => None
  end.

Definition close_object (stack : list frame) : option (state * list frame) :=
  match stack with
  | FObject members None :: st => deliver (JObject members) st
  | _ => None
  end.

Definition key_token (t : token) (stack : list frame)
  : option (state * list frame) :=
  match t, stack with
  | TString k, FObject members None :: st =>
      Some (SColon, FObject members (Some k) :: st)
  | _, _ => None
  end.

Definition step (t : token) (s : state) (stack : list frame)
  : option (state * list frame) :=
  match s, t with
  | SValue, _ => value_token t stack
  | SValueOrClose, TRBracket => close_array stack
  | SValueOrClose, _ => value_token t stack
  | SAfterElement, TComma => Some (SValue, stack)
  | SAfterElement, TRBracket => close_array stack
  | SKeyOrClose, TRBrace => close_object stack
  | SKeyOrClose, _ => key_token t stack
  | SKey, _ => key_token t stack
  | SColon, TColon => Some (SValue, stack)
  | SAfterMember, TComma => Some (SKey, stack)
  | SAfterMember, TRBrace => close_object stack
  | _, _ => None
  end.

Fixpoint run (ts : list token) (s : state) (stack : list frame)
  : option json :=
  match ts with
  | [] => match s with SDone v => Some v | _ => None end
  | t :: rest =>
      match step t s stack with
      | Some (s', stack') => run rest s' stack'
      | None => None
      end
  end.

(** [JSON.parse(text)]: [None] stands for the [SyntaxError] it throws. *)
Definition parse (text : string) : option json :=
  match lex Normal (to_chars text) with
  | Some ts => run ts SValue []
  | None => None
  end.

(** *** Serialisation of strings and of records of strings *)

Definition hex_digit (n : N) : ascii :=
  if (n <? 10)%N then ascii_of_N (48 + n) else ascii_of_N (87 + n).

(** The escape of one character inside a string literal. *)
Definition escape (c : ascii) : chars :=
  let n := code c in
  if Ascii.eqb c dquote then [backslash; dquote]
  else if Ascii.eqb c backslash then [backslash; backslash]
  else if (n =? 8)%N then [backslash; "b"%char]
  else if (n =? 9)%N then [backslash; "t"%char]
  else if (n =? 10)%N then [backslash; "n"%char]
  else if (n =? 12)%N then [backslash; "f"%char]
  else if (n =? 13)%N then [backslash; "r"%char]
  else if (n <? 32)%N then
    [backslash; "u"; "0"; "0"; hex_digit (n / 16); hex_digit (n mod 16)]%char
  else [c].

(** [JSON.stringify(s)] for a string [s]. *)
Definition quote (s : string) : string :=
  of_chars (dquote :: flat_map escape (to_chars s) ++ [dquote]).

(** One member of a serialised object. *)
Definition member_text (kv : string * string) : string :=
  quote (fst kv) +:+ ":" +:+ quote (snd kv).

(** *** The order in which the properties of an object are listed

    [JSON.stringify] lists the own properties in the order of
    [OrdinaryOwnPropertyKeys]: first the keys that are array indices, by
    ascending value, then the other keys in the order in which they were
    created. *)

Fixpoint decimal (acc : N) (cs : chars) : option N :=
  match cs with
  | [] => Some acc
  | c :: rest =>
      if is_digit c then decimal (acc * 10 + (code c - 48)) rest else None
  end.

(** An array index is the decimal text, without a leading zero, of an
    integer below [2^32 - 1]. *)
Definition array_index (k : string) : option N :=
  match to_chars k with
  | [] => None
  | c :: rest =>
      if Ascii.eqb c "0" then
        match rest with [] => Some 0%N | _ :: _ => None end
      else
        match decimal 0 (c :: rest) with
        | Some n => if (n <? 4294967295)%N then Some n else None
        | None => None
        end
  end.

Definition is_index (k : string) : bool :=
  match array_index k with Some _ => true | None => false end.

(** Insertion into the members with an index key, kept by ascending
    index. *)
Fixpoint insert_index {A} (n : N) (kv : string * A)
    (sorted : list (N * (string * A))) : list (N * (string * A)) :=
  match sorted with
  | [] => [(n, kv)]
  | (m, kv') :: rest =>
      if (n <? m)%N then (n, kv) :: sorted
      else (m, kv') :: insert_index n kv rest
  end.

Fixpoint index_members {A} (members : list (string * A))
  : list (N * (string * A)) :=
  match members with
  | [] => []
  | kv :: rest =>
      match array_index (fst kv) with
      | Some n => insert_index n kv (index_members rest)
      | None => index_members rest
      end
  end.

Definition js_order {A} (members : list (string * A)) : list (string * A) :=
  map snd (index_members members)
  ++ List.filter (fun kv => negb (is_index (fst kv))) members.

(** The value of a key that is an array index. *)
Definition index_value (k : string) : N :=
  match array_index k with Some n => n | None => 0%N end.

(** [JSON.stringify(o)] for an object [o] whose values are strings, given
    by its members in the order in which they were created. *)
Definition stringify_record (members : list (string * string)) : string :=
  "{" +:+ join "," (map member_text (js_order members)) +:+ "}".

(** *** Dynamic tests *)

(** [!!v]: the falsy values are [null], [false], [0] and the empty
    string. *)
Definition truthy (v : json) : bool :=
  match v with
  | JNull => false
  | JBool b => b
  | JNumber q => negb (Qeq_bool q 0)
  | JString s => negb (String.eqb s "")
  | JArray _ | JObject _ => true
  end.

(** [v[k]] for a key [k] that is on none of the prototypes: an own
    property of an object, and [undefined] ([None]) otherwise.  The keys
    read by the scoring client, [similarityScore] and [feedback], are such
    keys; arrays have only indices and [length] as own properties. *)
Definition get (v : json) (k : string) : option json :=
  match v with
  | JObject members => obj_get k members
  | _ => None
  end.

(** [typeof x === 'number'] for [x = v[k]] *)
Definition is_number (x : option json) : bool :=
  match x with Some (JNumber _) => true | _ => false end.

(** [Array.isArray(x)] *)
Definition isArray (x : option json) : bool :=
  match x with Some (JArray _) => true | _ => false end.

(** *** The tokens and the value of a serialised record *)

(** Tokens of the members of a record, separated by commas. *)
Fixpoint member_tokens (members : list (string * string)) : list token :=
  match members with
  | [] => []
  | [(k, v)] => [TString k; TColon; TString v]
  | (k, v) :: rest => TString k :: TColon :: TString v :: TComma :: member_tokens rest
  end.

(** A record of strings as a JSON object. *)
Definition as_json (members : list (string * string)) : list (string * json) :=
  map (fun kv => (fst kv, JString (snd kv))) members.

(** What the parser does with one more member. *)
Definition add_member (acc : list (string * json)) (kv : string * string) :=
  obj_set (fst kv) (JString (snd kv)) acc.

(** *** The invariant of the automaton

    Every object under construction, and the value that the automaton
    ends with, has no repeated key. *)

Definition frame_ok (f : frame) : Prop :=
  match f with
  | FArray _ => True
  | FObject members _ => NoDup members.*1
  end.

Definition value_ok (v : json) : Prop :=
  match v with
  | JObject members => NoDup members.*1
  | _ => True
  end.

Definition state_ok (s : state) : Prop :=
  match s with
  | SDone v => value_ok v
  | _ => True
  end.

End JSON.

(** ** Exceptions and state *)

Module Effects.

(** What a [throw] carries: an instance of [Error] (with its [name] and
    [message]), or some other value. *)
Inductive thrown : Type :=
  | ErrorInstance (name message : string)
  | OtherValue (description : string).

(** [new Error(message)] *)
Definition Error (message : string) : thrown := ErrorInstance "Error" message.

(** The [SyntaxError] that [JSON.parse(text)] throws.  Its message belongs
    to the JavaScript engine; the model puts the rejected text in its
    place. *)
Definition SyntaxError (text : string) : thrown :=
  ErrorInstance "SyntaxError" ("JSON.parse: " +:+ text).

(** How a call ends.  [IllTyped] marks a run that left the typed model: a
    value that comes from outside (a text read from storage, a data URL
    made by the browser) is not of the TypeScript type that the source
    declares for it.  No statement below relies on what happens then. *)
Inductive outcome (A : Type) : Type :=
  | Returns (a : A)
  | Throws (e : thrown)
  | IllTyped.
Arguments Returns {A} a.
Arguments Throws {A} e.
Arguments IllTyped {A}.

(** Computations over a mutable state [S] that may throw.  The state
    reached when an exception is thrown is kept: JavaScript does not roll
    anything back. *)
Definition M (S A : Type) : Type := S -> outcome A * S.

Definition ret {S A} (a : A) : M S A := fun s => (Returns a, s).

Definition bind {S A B} (m : M S A) (k : A -> M S B) : M S B :=
  fun s =>
    match m s with
    | (Returns a, s') => k a s'
    | (Throws e, s') => (Throws e, s')
    | (IllTyped, s') => (IllTyped, s')
    end.

Definition throw {S A} (e : thrown) : M S A := fun s => (Throws e, s).
Definition ill_typed {S A} : M S A := fun s => (IllTyped, s).
Definition get_state {S} : M S S := fun s => (Returns s, s).
Definition modify {S} (f : S -> S) : M S unit := fun s => (Returns tt, f s).

(** [try { body } catch (e) { handler(e) }] *)
Definition try_catch {S A} (body : M S A) (handler : thrown -> M S A)
  : M S A :=
  fun s =>
    match body s with
    | (Throws e, s') => handler e s'
    | r => r
    end.

(** A call to a collaborator whose outcome is already known. *)
Definition lift {S A} (o : outcome A) : M S A := fun s => (o, s).

End Effects.

Import Str JSON Effects.

Declare Scope js_scope.
Delimit Scope js_scope with js.
Notation "'let*' x ':=' m 'in' k" := (bind m (fun x => k))
  (at level 10, x name, m at level 100, k at level 200) : js_scope.
Notation "m ';;' k" := (bind m (fun _ => k))
  (at level 100, k at level 200, right associativity) : js_scope.
Local Open Scope js_scope.

(** [localStorage]: string keys, string values. *)
Abbreviation Storage := (gmap string string).

(** ** The session service ([services/authService.ts]) *)

Module Auth.

Record User : Type := { username : string }.

(** The module variable [currentUser] and the browser's [localStorage]. *)
Record State : Type := {
    currentUser : option User;
    localStorage : Storage;
  }.

Definition USERS_KEY : string := "pec_users".
Definition CURRENT_USER_KEY : string := "pec_current_user".

(** [Record<string, string>]: the own properties, in the order in which
    they were created.  (JavaScript enumerates keys that are array
    indices before the others; the users map is enumerated by the service
    only to serialise it, where [stringify_record] lists the properties
    in that order.) *)
Definition Users : Type := list (string * string).

Definition getItem (key : string) : M State (option string) :=
  fun s => (Returns (localStorage s !! key), s).

(** [localStorage.setItem(key, value)] on a storage that accepts the
    write.  The service over a storage that can refuse one is the module
    [AuthQuota] below. *)
Definition setItem (key value : string) : M State unit :=
  modify (fun s => {| currentUser := currentUser s;
                      localStorage := <[key := value]> (localStorage s) |}).

Definition removeItem (key : string) : M State unit :=
  modify (fun s => {| currentUser := currentUser s;
                      localStorage := delete key (localStorage s) |}).

(** A parsed value seen at the type [Record<string, string>]. *)
Fixpoint as_strings (members : list (string * json)) : option Users :=
  match members with
  | [] => Some []
  | (k, JString v) :: rest => cons (k, v) <$> as_strings rest
  | _ => None
  end.

Definition as_users (v : json) : option Users :=
  match v with
  | JObject members => as_strings members
  | _ => None
  end.

(** A parsed value seen at the type [User | null]. *)
Definition as_user (v : json) : option (option User) :=
  match v with
  | JNull => Some None
  | JObject members =>
      match obj_get "username" members with
      | Some (JString u) => Some (Some {| username := u |})
      | _ => None
      end
  | _ => None
  end.

(** [raw ? JSON.parse(raw) : {}]: a missing value and the empty string are
    both falsy. *)
Definition getUsers : M State Users :=
  let* raw := getItem USERS_KEY in
  match raw with
  | None | Some "" => ret []
  | Some raw =>
      match JSON.parse raw with
      | None => throw (SyntaxError raw)
      | Some v =>
          match as_users v with
          | Some users => ret users
          | None => ill_typed
          end
      end
  end.

Definition setUsers (users : Users) : M State unit :=
  setItem USERS_KEY (stringify_record users).

Definition stringify_user (u : User) : string :=
  stringify_record [("username", username u)].

Definition setCurrentUser (user : option User) : M State unit :=
  modify (fun s => {| currentUser := user; localStorage := localStorage s |});;
  match user with
  | Some u => setItem CURRENT_USER_KEY (stringify_user u)
  | None => removeItem CURRENT_USER_KEY
  end.

(** The names every object inherits from [Object.prototype]. *)
Definition Object_prototype : list string :=
  [ "constructor"; "__proto__"; "hasOwnProperty"; "isPrototypeOf";
    "propertyIsEnumerable"; "toLocaleString"; "toString"; "valueOf";
    "__defineGetter__"; "__defineSetter__"; "__lookupGetter__";
    "__lookupSetter__" ].

(** The value of [users[username]]. *)
Inductive property : Type :=
  | Own (password : string)   (* an own property, a string *)
  | Inherited                 (* a member of [Object.prototype] *)
  | Undefined.

Definition lookup_user (users : Users) (name : string) : property :=
  match obj_get name users with
  | Some p => Own p
  | None => if bool_decide (name ∈ Object_prototype) then Inherited
            else Undefined
  end.

(** [!!users[username]]: the empty string and [undefined] are falsy. *)
Definition property_truthy (p : property) : bool :=
  match p with
  | Own s => negb (String.eqb s "")
  | Inherited => true
  | Undefined => false
  end.

(** [users[username] !== password] *)
Definition differs (p : property) (password : string) : bool :=
  match p with
  | Own s => negb (String.eqb s password)
  | Inherited | Undefined => true
  end.

(** The delay [await new Promise((r) => setTimeout(r, 500))] changes no
    state of this module and is left out. *)
Definition login (name password : string) : M State User :=
  let* users := getUsers in
  if negb (property_truthy (lookup_user users name)) then
    throw (Error "User not found. Please sign up first.")
  else if differs (lookup_user users name) password then
    throw (Error "Incorrect password.")
  else
    let user := {| username := name |} in
    setCurrentUser (Some user);;
    ret user.

Definition signup (name password : string) : M State User :=
  let* users := getUsers in
  if property_truthy (lookup_user users name) then
    throw (Error "Username already exists.")
  else
    let users := obj_set name password users in
    setUsers users;;
    let user := {| username := name |} in
    setCurrentUser (Some user);;
    ret user.

Definition logout : M State unit :=
  setCurrentUser None.

Definition getCurrentUser : M State (option User) :=
  let* s := get_state in
  match currentUser s with
  | Some u => ret (Some u)
  | None =>
      let* raw := getItem CURRENT_USER_KEY in
      match raw with
      | None | Some "" => ret None
      | Some raw =>
          (* try { currentUser = JSON.parse(raw); return currentUser; }
             catch { return null; } *)
          match JSON.parse raw with
          | None => ret None
          | Some v =>
              match as_user v with
              | Some u =>
                  modify (fun s => {| currentUser := u;
                                      localStorage := localStorage s |});;
                  ret u
              | None => ill_typed
              end
          end
      end
  end.

(** A fresh page: nothing stored, nobody signed in. *)
Definition initial : State := {| currentUser := None; localStorage := ∅ |}.

(** Line 5 of the service: a fresh load of the module (a page reload)
    starts with [currentUser = null]; [localStorage] outlives it. *)
Definition reload (s : State) : State :=
  {| currentUser := None; localStorage := localStorage s |}.

End Auth.

(** ** The session service over a storage that can refuse a write

    [localStorage.setItem] throws when the browser does not accept the
    write (a [QuotaExceededError] when the quota is used up, a
    [SecurityError] when storage is disabled).  The functions below are
    those of [services/authService.ts] again, line by line, over a state
    that also holds the browser's answer to a write; the values and the
    pure helpers are those of [Auth].  ([logout] and [getCurrentUser]
    never call [setItem]: they are as in [Auth].) *)

Module AuthQuota.

Export Auth (User, username, Build_User, Users, USERS_KEY, CURRENT_USER_KEY,
             as_users, as_user, stringify_user, lookup_user, property_truthy,
             differs).

(** The module variable [currentUser], the browser's [localStorage], and
    what [localStorage.setItem(key, value)] throws on a given storage,
    [None] when the write is accepted. *)
Record State : Type := {
    currentUser : option User;
    localStorage : Storage;
    refusal : Storage -> string -> string -> option thrown;
  }.

Definition getItem (key : string) : M State (option string) :=
  fun s => (Returns (localStorage s !! key), s).

(** A write that is refused throws and stores nothing. *)
Definition setItem (key value : string) : M State unit :=
  let* s := get_state in
  match refusal s (localStorage s) key value with
  | Some e => throw e
  | None =>
      modify (fun s => {| currentUser := currentUser s;
                          localStorage := <[key := value]> (localStorage s);
                          refusal := refusal s |})
  end.

Definition removeItem (key : string) : M State unit :=
  modify (fun s => {| currentUser := currentUser s;
                      localStorage := delete key (localStorage s);
                      refusal := refusal s |}).

Definition getUsers : M State Users :=
  let* raw := getItem USERS_KEY in
  match raw with
  | None | Some "" => ret []
  | Some raw =>
      match JSON.parse raw with
      | None => throw (SyntaxError raw)
      | Some v =>
          match as_users v with
          | Some users => ret users
          | None => ill_typed
          end
      end
  end.

Definition setUsers (users : Users) : M State unit :=
  setItem USERS_KEY (stringify_record users).

(** [currentUser = user] comes first, the write after it. *)
Definition setCurrentUser (user : option User) : M State unit :=
  modify (fun s => {| currentUser := user;
                      localStorage := localStorage s;
                      refusal := refusal s |});;
  match user with
  | Some u => setItem CURRENT_USER_KEY (stringify_user u)
  | None => removeItem CURRENT_USER_KEY
  end.

Definition login (name password : string) : M State User :=
  let* users := getUsers in
  if negb (property_truthy (lookup_user users name)) then
    throw (Error "User not found. Please sign up first.")
  else if differs (lookup_user users name) password then
    throw (Error "Incorrect password.")
  else
    let user := {| username := name |} in
    setCurrentUser (Some user);;
    ret user.

Definition signup (name password : string) : M State User :=
  let* users := getUsers in
  if property_truthy (lookup_user users name) then
    throw (Error "Username already exists.")
  else
    let users := obj_set name password users in
    setUsers users;;
    let user := {| username := name |} in
    setCurrentUser (Some user);;
    ret user.

(** The state of [Auth] inside a state of this module. *)
Definition forget (s : State) : Auth.State :=
  {| Auth.currentUser := currentUser s; Auth.localStorage := localStorage s |}.

(** A browser that accepts every write. *)
Definition accepts_all (s : State) : Prop :=
  forall storage key value, refusal s storage key value = None.

End AuthQuota.

(** ** The progress store ([App.tsx]) *)

Module Progress.

(** Modelled from the spec: the enumeration [ChallengeStatus] of
    [types.ts], which is not among the sources; [App.tsx] uses its members
    [UNLOCKED] and [LOCKED], the specification names the third. *)
Inductive ChallengeStatus : Type := LOCKED | UNLOCKED | COMPLETED.

Record ChallengeProgress : Type := {
    status : ChallengeStatus;
    streak : Z;
    previousSimilarityScore : Q;
  }.

(** An entry of the catalog [CHALLENGES] of [constants.ts].  The [id] is
    the key of the entry in the progress map. *)
Record Challenge : Type := {
    id : Z;
    name : string;
    description : string;
    imageUrl : string;
  }.

(** [Record<number, ChallengeProgress>] *)
Abbreviation ProgressMap := (gmap Z ChallengeProgress).

(** The value held by the state variable [challengeProgress]: a map built
    by the component, or whatever [JSON.parse] made of the stored text,
    which [setChallengeProgress(JSON.parse(savedProgress))] stores
    unchecked. *)
Inductive progress_state : Type :=
  | Built (m : ProgressMap)
  | Parsed (v : json).

Inductive event : Type :=
  | SetItem (key value : string)
  | ConsoleError (message : string) (error : thrown).

Record State : Type := {
    challengeProgress : progress_state;
    localStorage : Storage;
    trace : list event;       (* what the component did, oldest first *)
  }.

Definition PROGRESS_STORAGE_KEY : string := "prompt-challenge-progress".

Definition log (ev : event) : M State unit :=
  modify (fun s => {| challengeProgress := challengeProgress s;
                      localStorage := localStorage s;
                      trace := trace s ++ [ev] |}).

Definition getItem (key : string) : M State (option string) :=
  fun s => (Returns (localStorage s !! key), s).

Definition setItem (key value : string) : M State unit :=
  modify (fun s => {| challengeProgress := challengeProgress s;
                      localStorage := <[key := value]> (localStorage s);
                      trace := trace s |});;
  log (SetItem key value).

Definition setChallengeProgress (p : progress_state) : M State unit :=
  modify (fun s => {| challengeProgress := p;
                      localStorage := localStorage s;
                      trace := trace s |}).

(** The body of [CHALLENGES.forEach((challenge, index) => ...)], which
    assigns [initialProgress[challenge.id]]. *)
Definition initial_entry (index : nat) : ChallengeProgress :=
  {| status := if (index =? 0)%nat then UNLOCKED else LOCKED;
     streak := 0;
     previousSimilarityScore := 0 |}.

Fixpoint forEach_from (index : nat) (challenges : list Challenge)
    (initialProgress : ProgressMap) : ProgressMap :=
  match challenges with
  | [] => initialProgress
  | challenge :: rest =>
      forEach_from (S index) rest
        (<[id challenge := initial_entry index]> initialProgress)
  end.

(** [const initialProgress = {}; CHALLENGES.forEach(...)] *)
Definition initialProgress (CHALLENGES : list Challenge) : ProgressMap :=
  forEach_from 0 CHALLENGES ∅.

(** The second half of the first effect of [App]: load user progress. *)
Definition loadProgress (CHALLENGES : list Challenge) : M State unit :=
  try_catch
    (let* savedProgress := getItem PROGRESS_STORAGE_KEY in
     match savedProgress with
     | None | Some "" =>
         setChallengeProgress (Built (initialProgress CHALLENGES))
     | Some text =>
         match JSON.parse text with
         | Some v => setChallengeProgress (Parsed v)
         | None => throw (SyntaxError text)
         end
     end)
    (fun e =>
       log (ConsoleError "Failed to parse progress from local storage" e);;
       setChallengeProgress (Built (initialProgress CHALLENGES))).

(** What [loadProgress] writes to the console: nothing when no text is
    stored (or the empty text, which is falsy and never parsed), the
    [SyntaxError] when a stored text does not parse. *)
Definition load_log (saved : option string) : list event :=
  match saved with
  | None | Some "" => []
  | Some text =>
      [ConsoleError "Failed to parse progress from local storage"
         (SyntaxError text)]
  end.

(** [Object.keys(challengeProgress).length]: the number of own enumerable
    string keys (for a string, of its characters, counted here in bytes);
    [Object.keys(null)] throws. *)
Definition Object_keys_length (p : progress_state) : outcome nat :=
  match p with
  | Built m => Returns (size m)
  | Parsed (JObject members) => Returns (length members)
  | Parsed (JArray items) => Returns (length items)
  | Parsed (JString s) => Returns (String.length s)
  | Parsed (JBool _) | Parsed (JNumber _) => Returns 0%nat
  | Parsed JNull =>
      Throws (ErrorInstance "TypeError"
                "Cannot convert undefined or null to object")
  end.

Section Persist.

(** [JSON.stringify] at the type of the state variable.  The encoding of
    a [ChallengeStatus] is fixed by [types.ts], which is not among the
    sources. *)
Variable stringify : progress_state -> string.

(** The second effect of [App]: persist progress whenever it changes. *)
Definition persistProgress : M State unit :=
  let* s := get_state in
  let* n := lift (Object_keys_length (challengeProgress s)) in
  if (0 <? n)%nat
  then setItem PROGRESS_STORAGE_KEY (stringify (challengeProgress s))
  else ret tt.

End Persist.

End Progress.

(** ** The mute setting ([App.tsx]) *)

Module Mute.

Definition MUTE_STORAGE_KEY : string := "prompt-challenge-muted".

(** The state variable [isMuted], the browser's [localStorage], what the
    component did to the storage and the console, oldest first, and the
    browser's answer to a write: [refusal storage key value] is what
    [localStorage.setItem(key, value)] throws on the storage [storage] (a
    [QuotaExceededError] when the quota is used up, a [SecurityError]
    when storage is disabled), [None] when the write is accepted. *)
Record State : Type := {
  isMuted : bool;
  localStorage : Storage;
  trace : list Progress.event;
  refusal : Storage -> string -> string -> option thrown;
}.

Definition log (ev : Progress.event) : M State unit :=
  modify (fun s => {| isMuted := isMuted s;
                      localStorage := localStorage s;
                      trace := trace s ++ [ev];
                      refusal := refusal s |}).

Definition getItem (key : string) : M State (option string) :=
  fun s => (Returns (localStorage s !! key), s).

(** [localStorage.setItem(key, value)]: a write that is refused throws
    and stores nothing. *)
Definition setItem (key value : string) : M State unit :=
  let* s := get_state in
  match refusal s (localStorage s) key value with
  | Some e => throw e
  | None =>
      modify (fun s => {| isMuted := isMuted s;
                          localStorage := <[key := value]> (localStorage s);
                          trace := trace s;
                          refusal := refusal s |});;
      log (Progress.SetItem key value)
  end.

(** [JSON.stringify(b)] for a boolean [b]. *)
Definition stringify_bool (b : bool) : string :=
  if b then "true" else "false".

(** The initializer of [useState<boolean>]: the stored setting, [false]
    when nothing is stored or the stored text does not parse.  A stored
    text that parses to something else than a boolean is outside the type
    of the state variable. *)
Definition initialMuted : M State bool :=
  try_catch
    (let* savedState := getItem MUTE_STORAGE_KEY in
     match savedState with
     | None | Some "" => ret false
     | Some text =>
         match JSON.parse text with
         | Some (JBool b) => ret b
         | Some _ => ill_typed
         | None => throw (SyntaxError text)
         end
     end)
    (fun e =>
       log (Progress.ConsoleError
              "Failed to parse mute state from local storage" e);;
       ret false).




End Mute.

(** ** The image compositor and the scoring client (the analysis service) *)

Module Analysis.

(** The fields of [User] and [Challenge] ([types.ts]) that the service
    reads. *)
Record User : Type := { email : string }.

Record Challenge : Type := {
    name : string;
    description : string;
    imageUrl : string;
  }.

(** An [HTMLImageElement] once loaded: its source and natural size. *)
Record Image : Type := {
    src : string;
    width : N;
    height : N;
  }.

(** A canvas: its size and the calls of [drawImage(image, dx, dy)] made on
    its context, oldest first. *)
Record Canvas : Type := {
    canvas_width : N;
    canvas_height : N;
    drawn : list (Image * N * N);
  }.

(** The schema sent with the request (a value of the SDK's [Schema]). *)
Inductive Schema : Type :=
  | TypeNumber (description : string)
  | TypeString
  | TypeArray (items : Schema) (description : string)
  | TypeObject (properties : list (string * Schema)) (required : list string).

(** The argument of [gemini.models.generateContent]. *)
Record Request : Type := {
    model : string;
    text : string;
    inlineData : string;
    mimeType : string;
    systemInstruction : string;
    responseMimeType : string;
    schema : Schema;   (* [config.responseSchema] *)
  }.

(** The collaborators of the service: the browser and the modules
    [ApiService] and [@google/genai], which are not among the sources.
    Each field gives the outcome of one call. *)
Record World : Type := {
    (* [canvas.getContext('2d')] is not [null] *)
    has_context : bool;
    (* [getLocalImageAsBlobUrl(url)] *)
    getLocalImageAsBlobUrl : string -> outcome string;
    (* the size of the image that [src] decodes to; [None]: [onerror] *)
    decode : string -> option (N * N);
    (* when both images fail, whether the target's [onerror] fires first *)
    target_fails_first : bool;
    (* [canvas.toDataURL(type)] *)
    toDataURL : Canvas -> string -> outcome string;
    (* [getAi()] *)
    getAi : outcome unit;
    (* [response.text] of [gemini.models.generateContent(request)];
       [None] is [undefined] *)
    generateContent : Request -> outcome (option string);
    (* [c.toUpperCase()] for one character [c] outside ASCII: the Unicode
       case mapping of the JavaScript engine *)
    toUpperCase : string -> string;
    (* the message of the [SyntaxError] of [JSON.parse(text)] *)
    syntax_error_message : string -> string;
    (* the message of the [TypeError] of [undefined.trim()] *)
    type_error_message : string;
  }.

(** What the service does to the outside, oldest first. *)
Inductive event : Type :=
  | CallGetAi
  | CallGetLocalImageAsBlobUrl (url : string)
  | RevokeObjectURL (url : string)
  | CallGenerateContent (request : Request)
  | ConsoleError (message : string) (error : thrown).

Definition log (ev : event) : M (list event) unit :=
  modify (fun tr => tr ++ [ev]).

(** The calls of the oracle in a trace. *)
Definition is_generate (ev : event) : bool :=
  match ev with CallGenerateContent _ => true | _ => false end.

(** The calls of [URL.revokeObjectURL] and of [console.error] in a trace. *)
Definition is_revoke (ev : event) : bool :=
  match ev with RevokeObjectURL _ => true | _ => false end.

Definition is_console (ev : event) : bool :=
  match ev with ConsoleError _ _ => true | _ => false end.

Definition nl : string := String (ascii_of_N 10) "".
Definition dq : string := String dquote "".

Section Service.

Variable w : World.

(** *** Image stitching *)

(** [new Promise(...)] around [image.onload] and [image.onerror] *)
Definition load (source : string) (failure : string) : outcome Image :=
  match decode w source with
  | Some (wd, ht) =>
      Returns {| src := source; width := wd; height := ht |}
  | None => Throws (Error failure)
  end.

(** [Promise.all([p1, p2])]: both results, or the rejection that comes
    first. *)
Definition Promise_all (p1 p2 : outcome Image) : outcome (Image * Image) :=
  match p1, p2 with
  | Returns a, Returns b => Returns (a, b)
  | IllTyped, _ | _, IllTyped => IllTyped
  | Throws e, Returns _ => Throws e
  | Returns _, Throws e => Throws e
  | Throws e1, Throws e2 =>
      if target_fails_first w then Throws e1 else Throws e2
  end.

Definition stitchImages (targetImageUrl generatedImageBase64 : string)
  : M (list event) string :=
  if negb (has_context w) then
    throw (Error "Could not get canvas context")
  else
    log (CallGetLocalImageAsBlobUrl targetImageUrl);;
    let* blobUrl := lift (getLocalImageAsBlobUrl w targetImageUrl) in
    let loadTargetPromise :=
      load blobUrl ("Failed to load target image: " +:+ targetImageUrl) in
    let loadGeneratedPromise :=
      load ("data:image/jpeg;base64," +:+ generatedImageBase64)
           "Failed to load generated image from base64" in
    let* imgs := lift (Promise_all loadTargetPromise loadGeneratedPromise) in
    let '(img1, img2) := imgs in
    let canvasWidth := (width img1 + width img2)%N in
    let canvasHeight := N.max (height img1) (height img2) in
    let canvas :=
      {| canvas_width := canvasWidth;
         canvas_height := canvasHeight;
         drawn := [(img1, 0%N, 0%N); (img2, width img1, 0%N)] |} in
    (if startsWith blobUrl "blob:" then log (RevokeObjectURL blobUrl)
     else ret tt);;
    let* dataUrl := lift (toDataURL w canvas "image/jpeg") in
    (* [.split(',')[1]]; a data URL has a comma *)
    match split "," dataUrl with
    | _ :: base64 :: _ => ret base64
    | _ => ill_typed
    end.

(** *** Analysis service logic *)

Definition getUserName (email : string) : string :=
  let namePart := hd "" (split "@" email) in
  capitalize (toUpperCase w) (hd "" (split "." namePart)).

Definition systemPrompt (userName : string) : string :=
  "You are an expert image analysis AI for a prompt engineering learning tool. Your feedback tone should be quirky and vague, in simple and clear Indian English. Keep technical terms in pure English." +:+ nl +:+
  "A student named " +:+ userName +:+ " is trying to generate an image to match a target image for a prompt engineering challenge." +:+ nl +:+
  "Analyze the provided image which contains two images side-by-side. The image on the LEFT is the " +:+ dq +:+ "target image" +:+ dq +:+ ", and the image on the RIGHT is the student's generated image." +:+ nl +:+
  nl +:+
  "Provide:" +:+ nl +:+
  "1. A 'similarityScore' from 0-100." +:+ nl +:+
  "2. A 'feedback' JSON array of up to 3 strings with prompt improvement suggestions." +:+ nl +:+
  nl +:+
  "Respond ONLY with a JSON object matching the provided schema.".

Definition userTurnPrompt (challenge : Challenge) (userPrompt : string)
  : string :=
  " Challenge Name: " +:+ dq +:+ name challenge +:+ dq +:+ "." +:+ nl +:+
  "The goal is: " +:+ dq +:+ description challenge +:+ dq +:+ "." +:+ nl +:+
  "The student's prompt was: " +:+ dq +:+ userPrompt +:+ dq +:+ "." +:+ nl.

Definition responseSchema : Schema :=
  TypeObject
    [ ("similarityScore",
       TypeNumber "A similarity score from 0-100 comparing the generated image to the target image.");
      ("feedback",
       TypeArray TypeString
         "An array of up to 3 strings with prompt improvement suggestions.") ]
    [ "similarityScore"; "feedback" ].

Definition request (user : User) (challenge : Challenge)
    (stitchedImageBase64 userPrompt : string) : Request :=
  {| model := "gemini-2.5-flash";
     text := userTurnPrompt challenge userPrompt;
     inlineData := stitchedImageBase64;
     mimeType := "image/jpeg";
     systemInstruction := systemPrompt (getUserName (email user));
     responseMimeType := "application/json";
     schema := responseSchema |}.

(** The test of lines 484-486: [result] is truthy, [typeof
    result.similarityScore] is ['number'] and [result.feedback] is an
    array. *)
Definition well_formed (result : json) : bool :=
  truthy result
  && is_number (get result "similarityScore")
  && isArray (get result "feedback").

(** Lines 481-488: from [response.text] to the result. *)
Definition read_response (response_text : option string)
  : M (list event) json :=
  match response_text with
  | None => throw (ErrorInstance "TypeError" (type_error_message w))
  | Some text =>
      let jsonText := trim text in
      match JSON.parse jsonText with
      | None =>
          throw (ErrorInstance "SyntaxError"
                   (syntax_error_message w jsonText))
      | Some result =>
          if negb (well_formed result)
          then throw (Error "Model returned malformed analysis data.")
          else ret result
      end
  end.

(** The error that the [catch] clause of [analyzeImages] throws. *)
Definition rethrow (error : thrown) : thrown :=
  match error with
  | ErrorInstance _ message => Error ("Analysis failed: " +:+ message)
  | OtherValue _ => Error "An unknown error occurred during analysis."
  end.

(** The [catch] clause of [analyzeImages]. *)
Definition catch_clause (error : thrown) : M (list event) json :=
  log (ConsoleError "Failed to get analysis:" error);;
  throw (rethrow error).

(** The [try] block of [analyzeImages]. *)
Definition try_block (user : User) (challenge : Challenge)
      (generatedImageBase64 userPrompt : string) : M (list event) json :=
  log CallGetAi;;
  lift (getAi w);;
  let* stitchedImageBase64 :=
    stitchImages (imageUrl challenge) generatedImageBase64 in
  let req := request user challenge stitchedImageBase64 userPrompt in
  log (CallGenerateContent req);;
  let* response_text := lift (generateContent w req) in
  read_response response_text.

Definition analyzeImages (user : User) (challenge : Challenge)
      (generatedImageBase64 userPrompt : string) : M (list event) json :=
  try_catch
    (try_block user challenge generatedImageBase64 userPrompt)
    catch_clause.

End Service.

(** The part of a data URL after its first comma, as [stitchImages] returns
    it. *)
Definition payload (encoded : outcome string) : outcome string :=
  match encoded with
  | Returns dataUrl =>
      match split "," dataUrl with
      | _ :: base64 :: _ => Returns base64
      | _ => IllTyped
      end
  | Throws e => Throws e
  | IllTyped => IllTyped
  end.

(** The canvas that [stitchImages] builds from two loaded images. *)
Definition side_by_side (img1 img2 : Image) : Canvas :=
  {| canvas_width := width img1 + width img2;
     canvas_height := N.max (height img1) (height img2);
     drawn := [(img1, 0%N, 0%N); (img2, width img1, 0%N)] |}.

End Analysis.

(** * Statements of the specification and sample data *)

Module Spec.

(** The response schema in the words of the specification: an object whose
    [similarityScore] is a number and whose [feedback] is a sequence of at
    most 3 strings. *)
Definition is_string (v : json) : bool :=
  match v with JString _ => true | _ => false end.

Definition conforms (v : json) : bool :=
  match v with
  | JObject members =>
      match obj_get "similarityScore" members, obj_get "feedback" members with
      | Some (JNumber _), Some (JArray items) =>
          forallb is_string items && (length items <=? 3)%nat
      | _, _ => false
      end
  | _ => false
  end.

(** An [AnalysisResult] in the words of the specification: the score is
    between 0 and 100 inclusive, the feedback has at most 3 strings. *)
Definition in_range (v : json) : bool :=
  match v with
  | JObject members =>
      match obj_get "similarityScore" members, obj_get "feedback" members with
      | Some (JNumber q), Some (JArray items) =>
          Qle_bool 0 q && Qle_bool q 100
          && forallb is_string items && (length items <=? 3)%nat
      | _, _ => false
      end
  | _ => false
  end.

(** The failure taxonomy of the scoring client in the specification. *)
Inductive ErrorKind : Type :=
  | TransportError | MalformedResponseError | UnknownError.

End Spec.

Module Samples.

Definition catalog : list Progress.Challenge :=
  [ {| Progress.id := 1; Progress.name := "Sunset";
       Progress.description := "A sunset over the sea";
       Progress.imageUrl := "/challenges/1.jpg" |};
    {| Progress.id := 2; Progress.name := "Robot";
       Progress.description := "A robot in the rain";
       Progress.imageUrl := "/challenges/2.jpg" |};
    {| Progress.id := 7; Progress.name := "Castle";
       Progress.description := "A castle on a hill";
       Progress.imageUrl := "/challenges/7.jpg" |} ].

(** Durable storage holds a text that is not JSON. *)
Definition corrupt_state : Progress.State :=
  {| Progress.challengeProgress := Progress.Built ∅;
     Progress.localStorage := {[ Progress.PROGRESS_STORAGE_KEY := "{oops" ]};
     Progress.trace := [] |}.

(** The defaults are in place and nothing is stored yet. *)
Definition loaded_state : Progress.State :=
  {| Progress.challengeProgress :=
       Progress.Built (Progress.initialProgress catalog);
     Progress.localStorage := ∅;
     Progress.trace := [] |}.

(** A state in which [bob] is registered with the empty password, as
    [signup("bob", "")] followed by [logout()] leaves it. *)
Definition bob_registered : Auth.State :=
  {| Auth.currentUser := None;
     Auth.localStorage :=
       {[ Auth.USERS_KEY := stringify_record [("bob", "")] ]} |}.

(** A page on which [asha] is registered and nobody is signed in. *)
Definition asha_registered : Auth.State :=
  {| Auth.currentUser := None;
     Auth.localStorage := {[ Auth.USERS_KEY := stringify_record [("asha", "s3cret")] ]} |}.

Import Analysis.

Definition student : User := {| email := "asha.rao@example.com" |}.

Definition challenge : Challenge :=
  {| name := "Sunset"; description := "A sunset over the sea";
     imageUrl := "/challenges/1.jpg" |}.

Definition blob : string := "blob:http://localhost:3000/4f1c".
Definition generated : string := "R0VORVJBVEVE".

(** The upper case of a few characters outside ASCII, as every engine has
    it. *)
Definition to_upper (c : string) : string :=
  if String.eqb c "é" then "É"
  else if String.eqb c "ß" then "SS"
  else c.

(** A browser and an oracle that work: the target decodes to 512 x 512, the
    candidate to 1024 x 768, and the oracle answers with [answer]. *)
Definition world (answer : outcome (option string)) : World :=
  {| has_context := true;
     getLocalImageAsBlobUrl := fun _ => Returns blob;
     decode := fun source =>
       if String.eqb source blob then Some (512, 512)%N
       else if String.eqb source ("data:image/jpeg;base64," +:+ generated)
       then Some (1024, 768)%N
       else None;
     target_fails_first := true;
     toDataURL := fun _ _ => Returns "data:image/jpeg;base64,U1RJVENIRUQ=";
     getAi := Returns tt;
     generateContent := fun _ => answer;
     toUpperCase := to_upper;
     syntax_error_message := fun _ => "Unexpected token";
     type_error_message := "Cannot read properties of undefined (reading 'trim')" |}.

(** The text of an answer with the given score and feedback items. *)
Definition answer_text (score : string) (feedback : list string) : string :=
  "{" +:+ quote "similarityScore" +:+ ":" +:+ score +:+ ","
      +:+ quote "feedback" +:+ ":[" +:+ join "," feedback +:+ "]}".

(** A score of 85 and two suggestions. *)
Definition good_answer : string :=
  answer_text "85" [quote "Add the lighting"; quote "Name the style"].

(** The same answer after a byte order mark (U+FEFF) and a line feed, and
    before a line separator (U+2028), a no-break space (U+00A0) and a
    space. *)
Definition padded_answer : string :=
  of_chars (map ascii_of_N [239; 187; 191; 10]%N)
  +:+ good_answer
  +:+ of_chars (map ascii_of_N [226; 128; 168; 194; 160; 32]%N).

(** Four feedback items, none of them a string. *)
Definition loose_answer : string := answer_text "50" ["1"; "2"; "3"; "4"].

(** A score of 150 and four feedback items, the last one a number. *)
Definition high_answer : string :=
  answer_text "150" [quote "a"; quote "b"; quote "c"; "4"].

(** [similarityScore] is a string. *)
Definition malformed_answer : string := answer_text (quote "high") [].

(** The oracle cannot be reached: [generateContent] rejects as [fetch]
    does. *)
Definition unreachable_oracle : World :=
  world (Throws (ErrorInstance "TypeError" "Failed to fetch")).

(** The target image cannot be fetched: [getLocalImageAsBlobUrl] rejects as
    [fetch] does. *)
Definition unreachable_image : World :=
  {| has_context := true;
     getLocalImageAsBlobUrl :=
       fun _ => Throws (ErrorInstance "TypeError" "Failed to fetch");
     decode := decode (world (Returns (Some good_answer)));
     target_fails_first := true;
     toDataURL := toDataURL (world (Returns (Some good_answer)));
     getAi := Returns tt;
     generateContent := fun _ => Returns (Some good_answer);
     toUpperCase := to_upper;
     syntax_error_message := fun _ => "Unexpected token";
     type_error_message := "Cannot read properties of undefined (reading 'trim')" |}.

End Samples.

(** * Properties *)

(** ** Strings *)

Section StrFacts.

(** Strings and lists of characters. *)
Lemma to_chars_app (a b : string) :
  to_chars (a +:+ b) = to_chars a ++ to_chars b.
Proof.
  unfold to_chars. induction a as [|c a IH]; simpl; [done|]. by rewrite IH.
Qed.

Lemma to_of_chars (cs : chars) : to_chars (of_chars cs) = cs.
Proof. apply list_ascii_of_string_of_list_ascii. Qed.

Lemma of_to_chars (s : string) : of_chars (to_chars s) = s.
Proof. apply string_of_list_ascii_of_string. Qed.

(** The bytes of the white space characters of two and of three bytes. *)
Lemma is_space2_inv (a b : ascii) :
  is_space2 a b = true -> code a = 194%N /\ code b = 160%N.
Proof.
  unfold is_space2. rewrite andb_true_iff, !N.eqb_eq. done.
Qed.

Lemma is_space3_inv (a b c : ascii) :
  is_space3 a b c = true ->
  (224 <= code a)%N /\ (128 <= code b)%N /\ code b <> 194%N
  /\ (128 <= code c)%N /\ code c <> 160%N.
Proof.
  unfold is_space3.
  rewrite !orb_true_iff, !andb_true_iff, !orb_true_iff, !andb_true_iff,
    !N.eqb_eq, !N.leb_le.
  lia.
Qed.

Lemma is_space1_high (c : ascii) : (128 <= code c)%N -> is_space1 c = false.
Proof.
  intros Hc. unfold is_space1. cbv zeta.
  rewrite orb_false_iff, andb_false_iff, !N.leb_gt, N.eqb_neq. lia.
Qed.

(** [trim] stops at a character that is not white space. *)
Lemma drop_space_stop (a : ascii) (cs : chars) :
  visible_ascii a = true -> drop_space (a :: cs) = a :: cs.
Proof.
  unfold visible_ascii. rewrite andb_true_iff, N.ltb_lt, negb_true_iff.
  intros [Ha Hspace]. unfold drop_space. cbn [drop_while_space].
  rewrite Hspace. destruct cs as [|b cs]; [done|].
  destruct (is_space2 a b) eqn:H2; [apply is_space2_inv in H2; lia|].
  destruct cs as [|c cs]; [done|].
  destruct (is_space3 a b c) eqn:H3; [apply is_space3_inv in H3; lia|]. done.
Qed.

Lemma drop_space_rev_stop (z : ascii) (cs : chars) :
  visible_ascii z = true -> drop_space_rev (z :: cs) = z :: cs.
Proof.
  unfold visible_ascii. rewrite andb_true_iff, N.ltb_lt, negb_true_iff.
  intros [Hz Hspace]. unfold drop_space_rev. cbn [drop_while_space].
  rewrite Hspace. destruct cs as [|b cs]; [done|].
  destruct (is_space2 b z) eqn:H2; [apply is_space2_inv in H2; lia|].
  destruct cs as [|c cs]; [done|].
  destruct (is_space3 c b z) eqn:H3; [apply is_space3_inv in H3; lia|]. done.
Qed.

(** It drops a white space character, read from either end. *)
Lemma drop_space_unit (u cs : chars) :
  white_space u = true -> drop_space (u ++ cs) = drop_space cs.
Proof.
  unfold drop_space.
  destruct u as [|a [|b [|c [|]]]]; try discriminate;
    cbn [white_space app drop_while_space].
  - by intros ->.
  - intros H2. rewrite H2. apply is_space2_inv in H2 as [Ha _].
    rewrite is_space1_high by lia. done.
  - intros H3. rewrite H3. apply is_space3_inv in H3 as (Ha & Hb & Hb' & _).
    rewrite is_space1_high by lia.
    destruct (is_space2 a b) eqn:H2; [apply is_space2_inv in H2; lia|]. done.
Qed.

Lemma drop_space_rev_unit (u cs : chars) :
  white_space u = true -> drop_space_rev (rev u ++ cs) = drop_space_rev cs.
Proof.
  unfold drop_space_rev.
  destruct u as [|a [|b [|c [|]]]]; try discriminate;
    cbn [white_space rev app drop_while_space].
  - by intros ->.
  - intros H2. rewrite H2. apply is_space2_inv in H2 as [_ Hb].
    rewrite is_space1_high by lia. done.
  - intros H3. rewrite H3. apply is_space3_inv in H3 as (_ & Hb & Hb' & Hc & Hc').
    rewrite is_space1_high by lia.
    destruct (is_space2 b c) eqn:H2; [apply is_space2_inv in H2; lia|]. done.
Qed.

Lemma drop_space_units (lead : list chars) (cs : chars) :
  Forall (fun u => white_space u = true) lead ->
  drop_space (concat lead ++ cs) = drop_space cs.
Proof.
  induction 1 as [|u lead Hu _ IH]; [done|].
  cbn [concat]. by rewrite <- app_assoc, drop_space_unit.
Qed.

Lemma drop_space_rev_units (trail : list chars) : forall cs,
  Forall (fun u => white_space u = true) trail ->
  drop_space_rev (rev (concat trail) ++ cs) = drop_space_rev cs.
Proof.
  induction trail as [|u trail IH]; intros cs Hall; [done|].
  apply Forall_cons in Hall as [Hu Hall].
  cbn [concat]. rewrite rev_app_distr, <- app_assoc, IH by done.
  by apply drop_space_rev_unit.
Qed.

(** [trim] removes the white space, of one byte or more, around a text
    that starts and ends with visible characters of ASCII. *)
Lemma trim_framed (lead trail : list chars) (a z : ascii) (body : chars) :
  Forall (fun u => white_space u = true) lead ->
  Forall (fun u => white_space u = true) trail ->
  visible_ascii a = true ->
  visible_ascii z = true ->
  trim (of_chars (concat lead ++ a :: body ++ z :: concat trail))
  = of_chars (a :: body ++ [z]).
Proof.
  intros Hlead Htrail Ha Hz. unfold trim. rewrite to_of_chars.
  rewrite drop_space_units, drop_space_stop by done.
  replace (rev (a :: body ++ z :: concat trail))
    with (rev (concat trail) ++ z :: rev (a :: body)).
  2:{ cbn [rev]. rewrite rev_app_distr. cbn [rev].
      rewrite <- !app_assoc. reflexivity. }
  rewrite drop_space_rev_units, drop_space_rev_stop by done.
  change (rev (z :: rev (a :: body))) with (rev (rev (a :: body)) ++ [z]).
  by rewrite rev_involutive.
Qed.

End StrFacts.

(** ** [JSON.parse] reads back what [JSON.stringify] writes *)

Section JSONFacts.

(** The lexer undoes the escape of a character, whatever the character. *)
Lemma lex_escape (c : ascii) (acc rest : chars) :
  lex (InString acc) (escape c ++ rest) = lex (InString (c :: acc)) rest.
Proof.
  destruct c as [[] [] [] [] [] [] [] []]; reflexivity.
Qed.

(** It reads the body of a string literal up to the closing quote. *)
Lemma lex_string_body (cs acc rest : chars) :
  lex (InString acc) (flat_map escape cs ++ dquote :: rest)
  = cons (TString (of_chars (rev acc ++ cs))) <$> lex Normal rest.
Proof.
  revert acc. induction cs as [|c cs IH]; intros acc; simpl.
  - by rewrite app_nil_r.
  - rewrite <- app_assoc, lex_escape, IH. simpl. by rewrite <- app_assoc.
Qed.

(** A serialised string is one string token. *)
Lemma lex_quote (s : string) (rest : chars) :
  lex Normal (to_chars (quote s) ++ rest)
  = cons (TString s) <$> lex Normal rest.
Proof.
  unfold quote. rewrite to_of_chars. simpl.
  rewrite <- app_assoc. simpl. rewrite lex_string_body. simpl.
  by rewrite of_to_chars.
Qed.

(** Punctuation. *)
Lemma lex_colon rest :
  lex Normal (":"%char :: rest) = cons TColon <$> lex Normal rest.
Proof. reflexivity. Qed.
Lemma lex_comma rest :
  lex Normal (","%char :: rest) = cons TComma <$> lex Normal rest.
Proof. reflexivity. Qed.
Lemma lex_lbrace rest :
  lex Normal ("{"%char :: rest) = cons TLBrace <$> lex Normal rest.
Proof. reflexivity. Qed.

(** A serialised member, members, record. *)
Lemma lex_member (kv : string * string) (rest : chars) :
  lex Normal (to_chars (member_text kv) ++ rest)
  = (fun ts => TString (fst kv) :: TColon :: TString (snd kv) :: ts)
    <$> lex Normal rest.
Proof.
  unfold member_text. rewrite !to_chars_app, <- !app_assoc, lex_quote.
  change (to_chars ":") with [":"%char]. cbn [app].
  rewrite lex_colon, lex_quote. by destruct (lex Normal rest).
Qed.

Lemma lex_members (members : list (string * string)) (ts : list token) rest :
  lex Normal rest = Some ts ->
  lex Normal (to_chars (join "," (map member_text members)) ++ rest)
  = Some (member_tokens members ++ ts).
Proof.
  intros Hrest. unfold join.
  induction members as [|kv members IH]; [done|].
  destruct members as [|kv' members].
  - cbn [map String.concat member_tokens]. rewrite lex_member, Hrest. by destruct kv.
  - cbn [map String.concat] in *.
    rewrite !to_chars_app, <- !app_assoc, lex_member.
    change (to_chars ",") with [","%char]. cbn [app].
    rewrite lex_comma, IH. by destruct kv.
Qed.

Lemma lex_record (members : list (string * string)) :
  lex Normal (to_chars (stringify_record members))
  = Some (TLBrace :: member_tokens (js_order members) ++ [TRBrace]).
Proof.
  unfold stringify_record. rewrite !to_chars_app.
  change (to_chars "{") with ["{"%char]. cbn [app].
  by rewrite lex_lbrace, (lex_members (js_order members) [TRBrace]).
Qed.

(** The automaton folds the members into an object, a repeated key taking
    the later value. *)
Lemma run_members (members : list (string * string)) : forall acc (first : bool),
  members <> [] ->
  run (member_tokens members ++ [TRBrace])
      (if first then SKeyOrClose else SKey) [FObject acc None]
  = Some (JObject (fold_left add_member members acc)).
Proof.
  induction members as [|[k v] members IH]; intros acc first Hne; [done|].
  destruct members as [|kv' members].
  - by destruct first.
  - change (fold_left add_member ((k, v) :: kv' :: members) acc)
      with (fold_left add_member (kv' :: members) (add_member acc (k, v))).
    rewrite <- (IH (add_member acc (k, v)) false) by done.
    by destruct first.
Qed.

Lemma run_record (members : list (string * string)) :
  run (TLBrace :: member_tokens members ++ [TRBrace]) SValue []
  = Some (JObject (fold_left add_member members [])).
Proof.
  destruct members as [|kv members]; [done|].
  by rewrite <- (run_members (kv :: members) [] true).
Qed.

(** Keys of an object. *)
Lemma obj_get_None {A} (k : string) (members : list (string * A)) :
  obj_get k members = None <-> k ∉ members.*1.
Proof.
  induction members as [|[k' v] members IH]; simpl.
  - split; [intros _; apply not_elem_of_nil | done].
  - rewrite not_elem_of_cons, <- IH.
    destruct (String.eqb_spec k' k) as [->|Hne].
    + split; [discriminate | by intros [? _]].
    + split; [intros ?; split; [congruence | done] | by intros [_ ?]].
Qed.

Lemma obj_set_fresh {A} (k : string) (v : A) (members : list (string * A)) :
  k ∉ members.*1 -> obj_set k v members = members ++ [(k, v)].
Proof.
  induction members as [|[k' v'] members IH]; simpl; [done|].
  rewrite not_elem_of_cons. intros [Hne Hfresh].
  destruct (String.eqb_spec k' k) as [->|_]; [done|]. by rewrite IH.
Qed.

(** With distinct keys, the members come out as they went in. *)
Lemma fold_add_member (members : list (string * string)) : forall acc,
  NoDup (acc.*1 ++ members.*1) ->
  fold_left add_member members acc = acc ++ as_json members.
Proof.
  induction members as [|[k v] members IH]; intros acc Hnd; simpl.
  - by rewrite app_nil_r.
  - unfold add_member at 2. simpl.
    apply NoDup_app in Hnd as Hparts. destruct Hparts as (Hacc & Hdisj & Hrest).
    rewrite obj_set_fresh.
    2:{ intros Hin. apply (Hdisj _ Hin). rewrite fmap_cons. left. }
    rewrite IH.
    + by rewrite <- app_assoc.
    + rewrite fmap_app. simpl. rewrite <- app_assoc. done.
Qed.

(** The listing order rearranges the members and loses none. *)
Lemma insert_index_perm {A} (n : N) (kv : string * A) sorted :
  map snd (insert_index n kv sorted) ≡ₚ kv :: map snd sorted.
Proof.
  induction sorted as [|[m kv'] sorted IH]; simpl; [done|].
  destruct (n <? m)%N; simpl; [done|]. rewrite IH. apply Permutation_swap.
Qed.

Lemma js_order_perm {A} (members : list (string * A)) :
  js_order members ≡ₚ members.
Proof.
  unfold js_order. induction members as [|kv members IH]; simpl; [done|].
  unfold is_index. destruct (array_index kv.1) as [n|]; simpl.
  - etrans; [apply Permutation_app_tail, insert_index_perm|].
    simpl. by apply Permutation_skip.
  - etrans; [symmetry; apply Permutation_middle|]. by apply Permutation_skip.
Qed.

(** The members with an index key are kept by ascending index. *)
Lemma insert_index_Forall {A} (P : N * (string * A) -> Prop) n kv sorted :
  P (n, kv) -> Forall P sorted -> Forall P (insert_index n kv sorted).
Proof.
  intros Hnew. induction 1 as [|[m kv'] sorted Hm Hall IH]; simpl.
  - by apply Forall_cons.
  - destruct (n <? m)%N.
    + apply Forall_cons. split; [done|]. by apply Forall_cons.
    + by apply Forall_cons.
Qed.

Lemma insert_index_sorted {A} n (kv : string * A) sorted :
  StronglySorted (fun a b => (fst a <= fst b)%N) sorted ->
  StronglySorted (fun a b => (fst a <= fst b)%N) (insert_index n kv sorted).
Proof.
  induction 1 as [|[m kv'] sorted Hsorted IH Hall]; simpl.
  - apply SSorted_cons; [apply SSorted_nil | apply Forall_nil_2].
  - destruct (N.ltb_spec n m) as [Hlt|Hge].
    + apply SSorted_cons; [by apply SSorted_cons|].
      apply Forall_cons. split; [simpl; lia|].
      eapply Forall_impl; [exact Hall|]. simpl. intros b Hb. lia.
    + apply SSorted_cons; [exact IH|].
      apply insert_index_Forall; [simpl; lia | exact Hall].
Qed.

Lemma index_members_sorted {A} (members : list (string * A)) :
  StronglySorted (fun a b => (fst a <= fst b)%N) (index_members members)
  /\ Forall (fun p => array_index (fst (snd p)) = Some (fst p))
       (index_members members).
Proof.
  induction members as [|kv members [IHsorted IHkeys]]; simpl.
  - split; [apply SSorted_nil | apply Forall_nil_2].
  - destruct (array_index kv.1) as [n|] eqn:Hkv; [|done]. split.
    + by apply insert_index_sorted.
    + by apply insert_index_Forall.
Qed.

Lemma index_members_order {A} (members : list (string * A)) :
  StronglySorted (fun a b => (index_value (fst a) <= index_value (fst b))%N)
    (map snd (index_members members))
  /\ Forall (fun kv => is_index (fst kv) = true)
       (map snd (index_members members)).
Proof.
  destruct (index_members_sorted members) as [Hsorted Hkeys].
  induction Hsorted as [|[n kv] sorted Hsorted IH Hall]; simpl.
  - split; [apply SSorted_nil | apply Forall_nil_2].
  - apply Forall_cons in Hkeys as [Hn Hkeys]. simpl in Hn.
    destruct (IH Hkeys) as [IHsorted IHindex]. split.
    + apply SSorted_cons; [done|]. simpl. unfold index_value at 1.
      rewrite Hn. clear IH IHsorted IHindex Hsorted.
      induction sorted as [|[m kv'] sorted IH]; simpl; [apply Forall_nil_2|].
      apply Forall_cons in Hall as [Hm Hall].
      apply Forall_cons in Hkeys as [Hk Hkeys]. simpl in *.
      apply Forall_cons. split; [|by apply IH].
      unfold index_value. by rewrite Hk.
    + apply Forall_cons. split; [|done]. unfold is_index. by rewrite Hn.
Qed.

Lemma js_order_NoDup {A} (members : list (string * A)) :
  NoDup members.*1 -> NoDup (js_order members).*1.
Proof. intros Hnd. by rewrite js_order_perm. Qed.

(** Members none of whose keys is an array index stay as they are. *)
Lemma js_order_plain {A} (members : list (string * A)) :
  Forall (fun kv => array_index kv.1 = None) members ->
  js_order members = members.
Proof.
  unfold js_order. intros Hplain.
  assert (Hnone : index_members members = []).
  { induction Hplain as [|kv members Hkv _ IH]; simpl; [done|]. by rewrite Hkv. }
  rewrite Hnone. clear Hnone. simpl.
  induction Hplain as [|kv members Hkv _ IH]; simpl; [done|].
  unfold is_index at 1. rewrite Hkv. simpl. by rewrite IH.
Qed.

(** With distinct keys, reading a property is finding its member. *)
Lemma obj_get_Some_elem {A} (k : string) (v : A) (members : list (string * A)) :
  NoDup members.*1 -> obj_get k members = Some v <-> (k, v) ∈ members.
Proof.
  induction members as [|[k' v'] members IH]; simpl; intros Hnd.
  - split; [done | intros Hin; by apply elem_of_nil in Hin].
  - apply NoDup_cons in Hnd as [Hfresh Hnd]. rewrite elem_of_cons.
    destruct (String.eqb_spec k' k) as [->|Hne].
    + split; [intros [= ->]; by left|].
      intros [[= ->]|Hin]; [done|]. destruct Hfresh.
      apply (list_elem_of_fmap_2 fst _ (k, v)). done.
    + rewrite IH by done. split; [by right|]. intros [[= ? ?]|?]; congruence.
Qed.

(** So the listing order does not change what a property reads. *)
Lemma obj_get_js_order {A} (k : string) (members : list (string * A)) :
  NoDup members.*1 -> obj_get k (js_order members) = obj_get k members.
Proof.
  intros Hnd. apply option_eq. intros v.
  rewrite !obj_get_Some_elem by (done || by apply js_order_NoDup).
  by rewrite js_order_perm.
Qed.

(** [JSON.parse(JSON.stringify(o))] gives back the properties of [o], in
    the order in which [JSON.stringify] lists them, for every record [o] of
    strings with distinct keys. *)
Lemma parse_stringify_record (members : list (string * string)) :
  NoDup members.*1 ->
  JSON.parse (stringify_record members)
  = Some (JObject (as_json (js_order members))).
Proof.
  intros Hnd. unfold JSON.parse. rewrite lex_record, run_record.
  rewrite fold_add_member; [done|]. by apply js_order_NoDup.
Qed.

End JSONFacts.

(** ** The progress store *)

Section ProgressFacts.

Import Progress.

Implicit Types (cs : list Challenge) (m : ProgressMap).

(** The loop writes the keys of the catalog and no other. *)
Lemma forEach_from_other cs : forall index m k,
    k ∉ id <$> cs ->
    forEach_from index cs m !! k = m !! k.
Proof.
    induction cs as [|c cs IH]; intros index m k Hk; simpl; [done|].
    rewrite fmap_cons in Hk. apply not_elem_of_cons in Hk as [Hne Hk].
    rewrite IH by done. by rewrite lookup_insert_ne.
Qed.

(** With distinct ids, the entry of the challenge at position [j] is the
    one the loop body builds at index [index + j]. *)
Lemma forEach_from_at cs : forall index m j c,
    NoDup (id <$> cs) ->
    cs !! j = Some c ->
    forEach_from index cs m !! id c = Some (initial_entry (index + j)).
Proof.
    induction cs as [|c0 cs IH]; intros index m j c Hnd Hj; [done|].
    rewrite fmap_cons in Hnd. apply NoDup_cons in Hnd as [Hfresh Hnd].
    destruct j as [|j]; simpl in *.
    - injection Hj as ->. rewrite forEach_from_other by done.
      rewrite lookup_insert_eq. by rewrite Nat.add_0_r.
    - rewrite (IH (S index) _ j c) by done. f_equal. f_equal. lia.
Qed.

Lemma forEach_from_dom cs : forall index m,
    dom (forEach_from index cs m) = dom m ∪ list_to_set (id <$> cs).
Proof.
    induction cs as [|c cs IH]; intros index m; simpl.
    - set_solver.
    - rewrite IH, dom_insert_L. set_solver.
Qed.

(** C2.  For a catalog whose ids are distinct, the default progress has
    exactly one record per catalog entry, keyed by the ids of the catalog;
    the record of the first entry is Unlocked, that of every other entry
    is Locked, and every record has streak 0 and previousSimilarityScore
    0. *)
Theorem initialProgress_defaults cs :
    NoDup (id <$> cs) ->
    size (initialProgress cs) = length cs
    /\ (forall k, is_Some (initialProgress cs !! k) <-> k ∈ id <$> cs)
    /\ (forall index challenge,
          cs !! index = Some challenge ->
          initialProgress cs !! id challenge
          = Some {| status := match index with O => UNLOCKED | S _ => LOCKED end;
                    streak := 0;
                    previousSimilarityScore := 0 |}).
Proof.
    intros Hnd. unfold initialProgress. split; [|split].
    - rewrite <- size_dom, forEach_from_dom, dom_empty_L, (left_id_L ∅ (∪)).
      rewrite size_list_to_set by done. by rewrite length_fmap.
    - intros k. rewrite <- elem_of_dom, forEach_from_dom. set_solver.
    - intros index challenge Hi.
      rewrite (forEach_from_at cs 0 ∅ index challenge Hnd Hi).
      unfold initial_entry. by destruct index.
Qed.

Lemma initialProgress_defaults_witness :
    size (initialProgress Samples.catalog) = 3%nat
    /\ initialProgress Samples.catalog !! 1%Z
       = Some {| status := UNLOCKED; streak := 0; previousSimilarityScore := 0 |}
    /\ initialProgress Samples.catalog !! 7%Z
       = Some {| status := LOCKED; streak := 0; previousSimilarityScore := 0 |}.
Proof.
    assert (Hnd : NoDup (id <$> Samples.catalog))
      by (apply (bool_decide_unpack _); vm_compute; reflexivity).
    destruct (initialProgress_defaults Samples.catalog Hnd) as (Hsize & _ & Hat).
    split; [exact Hsize|]. split.
    - exact (Hat 0%nat _ eq_refl).
    - exact (Hat 2%nat _ eq_refl).
Defined.

(** C7.  When durable storage holds no saved progress, or holds a text
    that does not parse, loading returns normally (nothing is thrown to
    the caller), the progress becomes the initialized default map, storage
    is left as it was, and the parse failure, if any, is only logged to
    the console.  The default map is the one that the loop over the
    catalog builds: its keys are the ids of the catalog, and, the ids being
    distinct, the record under the id of the first challenge is unlocked,
    that under every other id is locked, and each has streak 0 and
    previous similarity score 0. *)
Theorem loadProgress_fallback cs (s : State) :
    localStorage s !! PROGRESS_STORAGE_KEY = None
    \/ (exists text, localStorage s !! PROGRESS_STORAGE_KEY = Some text
                     /\ JSON.parse text = None) ->
    loadProgress cs s
    = (Returns tt,
       {| challengeProgress := Built (initialProgress cs);
          localStorage := localStorage s;
          trace := trace s
                   ++ load_log (localStorage s !! PROGRESS_STORAGE_KEY) |})
    /\ load_log (localStorage s !! PROGRESS_STORAGE_KEY)
       = match localStorage s !! PROGRESS_STORAGE_KEY with
         | Some (String c text) =>
             [ConsoleError "Failed to parse progress from local storage"
                (SyntaxError (String c text))]
         | _ => []
         end
    /\ dom (initialProgress cs) = list_to_set (id <$> cs)
    /\ (NoDup (id <$> cs) ->
        forall index challenge,
          cs !! index = Some challenge ->
          initialProgress cs !! id challenge
          = Some {| status := match index with O => UNLOCKED | S _ => LOCKED end;
                    streak := 0;
                    previousSimilarityScore := 0 |}).
Proof.
    intros Hstored. split; [|split; [|split]].
    - destruct Hstored as [Hnone | (text & Hsome & Hparse)];
        unfold loadProgress, try_catch, bind, getItem; simpl.
      + rewrite Hnone. simpl. by rewrite app_nil_r.
      + rewrite Hsome. destruct text as [|c text]; simpl.
        * by rewrite app_nil_r.
        * by rewrite Hparse.
    - unfold load_log.
      by destruct (localStorage s !! PROGRESS_STORAGE_KEY) as [[|c text]|].
    - unfold initialProgress.
      by rewrite forEach_from_dom, dom_empty_L, (left_id_L ∅ (∪)).
    - intros Hnd index challenge Hi. unfold initialProgress.
      rewrite (forEach_from_at cs 0 ∅ index challenge Hnd Hi).
      unfold initial_entry. by destruct index.
Qed.

Lemma loadProgress_fallback_witness :
    loadProgress Samples.catalog Samples.corrupt_state
    = (Returns tt,
       {| challengeProgress := Built (initialProgress Samples.catalog);
          localStorage := {[ PROGRESS_STORAGE_KEY := "{oops" ]};
          trace := [ConsoleError "Failed to parse progress from local storage"
                      (SyntaxError "{oops")] |})
    /\ initialProgress Samples.catalog !! 1%Z
       = Some {| status := UNLOCKED; streak := 0; previousSimilarityScore := 0 |}
    /\ initialProgress Samples.catalog !! 7%Z
       = Some {| status := LOCKED; streak := 0; previousSimilarityScore := 0 |}.
Proof.
    assert (Hnd : NoDup (id <$> Samples.catalog))
      by (apply (bool_decide_unpack _); vm_compute; reflexivity).
    destruct (loadProgress_fallback Samples.catalog Samples.corrupt_state)
      as (Hload & _ & _ & Hat).
    { right. exists "{oops". split; [reflexivity | vm_compute; reflexivity]. }
    split; [exact Hload|]. split.
    - exact (Hat Hnd 0%nat _ eq_refl).
    - exact (Hat Hnd 2%nat _ eq_refl).
Defined.

(** A stored text that parses is taken as it is. *)
Lemma loadProgress_parsed cs (s : State) text v :
    localStorage s !! PROGRESS_STORAGE_KEY = Some text ->
    JSON.parse text = Some v ->
    loadProgress cs s
    = (Returns tt,
       {| challengeProgress := Parsed v;
          localStorage := localStorage s;
          trace := trace s |}).
Proof.
    intros Hsome Hparse. unfold loadProgress, try_catch, bind, getItem; simpl.
    rewrite Hsome. destruct text as [|c text]; [done|]. by rewrite Hparse.
Qed.


(** C8.  The persistence effect touches durable storage only when the
    progress map has at least one entry: whenever running it changes
    anything (the storage or the record of the writes made), the number of
    keys of the progress is positive; in particular a map built by the
    component is then not empty. *)
Theorem persistProgress_guard stringify (s : State) :
    snd (persistProgress stringify s) <> s ->
    (exists n, Object_keys_length (challengeProgress s) = Returns n
               /\ (0 < n)%nat)
    /\ (forall m, challengeProgress s = Built m -> m <> ∅).
Proof.
    intros Hchanged.
    assert (Hn : exists n, Object_keys_length (challengeProgress s) = Returns n
                           /\ (0 < n)%nat).
    { unfold persistProgress, bind, get_state, lift in Hchanged.
      destruct (Object_keys_length (challengeProgress s)) as [n|e|] eqn:Hk;
        simpl in Hchanged; try done.
      exists n. split; [done|].
      destruct n as [|n]; [by simpl in Hchanged | lia]. }
    split; [exact Hn|].
    intros m Hm ->. destruct Hn as (n & Hk & Hpos).
    rewrite Hm in Hk. simpl in Hk. rewrite map_size_empty in Hk.
    injection Hk as <-. lia.
Qed.

Lemma persistProgress_guard_witness :
    exists n, Object_keys_length (challengeProgress Samples.loaded_state) = Returns n
              /\ (0 < n)%nat.
Proof.
    apply (persistProgress_guard (fun _ => "{}") Samples.loaded_state).
    vm_compute. intros H. discriminate H.
Defined.


End ProgressFacts.

(** ** The session service *)

Section AuthFacts.

Import Auth.

(** The test [if (users[username])] of [signup] and the test
    [if (!users[username])] of [login] look at the stored password, not at
    the presence of the key. *)
Lemma property_truthy_own users name password :
    obj_get name users = Some password ->
    property_truthy (lookup_user users name) = negb (String.eqb password "").
Proof. intros Hget. unfold lookup_user. by rewrite Hget. Qed.

Lemma bob_registered_reachable :
    (signup "bob" "";; logout) initial = (Returns tt, Samples.bob_registered).
Proof. vm_compute. reflexivity. Qed.

Lemma bob_registered_users :
    getUsers Samples.bob_registered = (Returns [("bob", "")], Samples.bob_registered).
Proof. vm_compute. reflexivity. Qed.

(** C9, at the input where the code departs from it.  [bob] is in the
    stored users map, with the empty password; [signup("bob", "hunter2")]
    does not throw: it returns a user and overwrites the stored entry. *)
Theorem signup_existing_empty_password :
    signup "bob" "hunter2" Samples.bob_registered
    = (Returns {| username := "bob" |},
       {| currentUser := Some {| username := "bob" |};
          localStorage :=
            {[ USERS_KEY := stringify_record [("bob", "hunter2")];
               CURRENT_USER_KEY := stringify_user {| username := "bob" |} ]} |}).
Proof. vm_compute. reflexivity. Qed.

(** Where the stored password is not empty, [signup] does throw and leaves
    the state, durable storage included, as it was. *)
Lemma signup_existing_nonempty (s : State) users name stored password :
    getUsers s = (Returns users, s) ->
    obj_get name users = Some stored ->
    stored <> "" ->
    signup name password s = (Throws (Error "Username already exists."), s).
Proof.
    intros Husers Hget Hne. unfold signup, bind. rewrite Husers.
    rewrite (property_truthy_own _ _ _ Hget).
    apply String.eqb_neq in Hne. by rewrite Hne.
Qed.

(** C10, at the input where the code departs from it.  [bob] is registered
    with the empty password; [login("bob", "")] throws, and
    [getCurrentUser()] afterwards returns [null]. *)
Theorem login_empty_password :
    login "bob" "" Samples.bob_registered
    = (Throws (Error "User not found. Please sign up first."), Samples.bob_registered)
    /\ getCurrentUser Samples.bob_registered = (Returns None, Samples.bob_registered).
Proof. split; vm_compute; reflexivity. Qed.

Lemma getUsers_state (s s' : State) users :
    getUsers s = (Returns users, s') -> s' = s.
Proof.
    unfold getUsers, bind, getItem. simpl.
    destruct (localStorage s !! USERS_KEY) as [[|c raw]|]; simpl;
      try (intros [= _ <-]; reflexivity).
    destruct (JSON.parse _) as [v|]; [|discriminate].
    destruct (as_users v); simpl; [|discriminate].
    by intros [= _ <-].
Qed.

(** Where the registered password is not empty, [login] returns the user
    and [getCurrentUser] gives it back. *)
Lemma login_then_getCurrentUser (s : State) users name password :
    getUsers s = (Returns users, s) ->
    obj_get name users = Some password ->
    password <> "" ->
    exists s',
      login name password s = (Returns {| username := name |}, s')
      /\ getCurrentUser s' = (Returns (Some {| username := name |}), s').
Proof.
    intros Husers Hget Hne. unfold login, bind. rewrite Husers.
    rewrite (property_truthy_own _ _ _ Hget).
    apply String.eqb_neq in Hne. rewrite Hne. simpl.
    unfold lookup_user. rewrite Hget. simpl. rewrite String.eqb_refl. simpl.
    eexists. split; reflexivity.
Qed.

(** *** Registration and login through durable storage *)

Lemma as_strings_as_json (users : Users) :
  as_strings (as_json users) = Some users.
Proof.
  induction users as [|[k v] users IH]; simpl; [done|]. by rewrite IH.
Qed.

Lemma stringify_record_truthy (users : Users) :
  exists c text, stringify_record users = String c text.
Proof. unfold stringify_record. simpl. eauto. Qed.

(** [getUsers] reads back the map that [setUsers] stored, its properties
    in the order in which they were listed. *)
Lemma getUsers_stored (s : State) (users : Users) :
  localStorage s !! USERS_KEY = Some (stringify_record users) ->
  NoDup users.*1 ->
  getUsers s = (Returns (js_order users), s).
Proof.
  intros Hstored Hnd. unfold getUsers, bind, getItem. simpl. rewrite Hstored.
  destruct (stringify_record_truthy users) as (c & text & Htext).
  rewrite Htext, <- Htext. simpl.
  rewrite (parse_stringify_record users Hnd). simpl.
  by rewrite as_strings_as_json.
Qed.

Lemma obj_get_set {A} (k : string) (v : A) (members : list (string * A)) :
  obj_get k (obj_set k v members) = Some v.
Proof.
  induction members as [|[k' v'] members IH]; simpl.
  - by rewrite String.eqb_refl.
  - destruct (String.eqb_spec k' k) as [->|Hne]; simpl.
    + by rewrite String.eqb_refl.
    + apply String.eqb_neq in Hne. by rewrite Hne.
Qed.

Lemma obj_set_keys {A} (k : string) (v : A) (members : list (string * A)) :
  k ∈ members.*1 -> (obj_set k v members).*1 = members.*1.
Proof.
  induction members as [|[k' v'] members IH]; cbn [obj_set].
  - by intros ?%elem_of_nil.
  - rewrite fmap_cons. destruct (String.eqb_spec k' k) as [->|Hne]; [done|].
    intros [?|Hin]%elem_of_cons; [simpl in *; congruence|].
    rewrite !fmap_cons. f_equal. by apply IH.
Qed.

Lemma obj_set_NoDup {A} (k : string) (v : A) (members : list (string * A)) :
  NoDup members.*1 -> NoDup (obj_set k v members).*1.
Proof.
  intros Hnd. destruct (decide (k ∈ members.*1)) as [Hin|Hfresh].
  - by rewrite obj_set_keys.
  - rewrite obj_set_fresh, fmap_app by done. simpl.
    apply NoDup_app. split; [done|]. split.
    + intros x Hx ->%list_elem_of_singleton. done.
    + apply NoDup_singleton.
Qed.

(** What [signup] does under a name that it accepts. *)
Lemma signup_accepted (s : State) (users : Users) name password :
  getUsers s = (Returns users, s) ->
  property_truthy (lookup_user users name) = false ->
  signup name password s
  = (Returns {| username := name |},
     {| currentUser := Some {| username := name |};
        localStorage :=
          <[CURRENT_USER_KEY := stringify_user {| username := name |}]>
            (<[USERS_KEY := stringify_record (obj_set name password users)]>
               (localStorage s)) |}).
Proof.
  intros Husers Hfree. unfold signup, bind. by rewrite Husers, Hfree.
Qed.

Lemma logout_state (s : State) :
  logout s
  = (Returns tt,
     {| currentUser := None;
        localStorage := delete CURRENT_USER_KEY (localStorage s) |}).
Proof. reflexivity. Qed.

(** A user who signs up with a password that is not empty, under a name
    that [signup] accepts, can log in with it after logging out, and is
    then the current user. *)
Lemma signup_logout_login (s : State) (users : Users) name password :
  getUsers s = (Returns users, s) ->
  NoDup users.*1 ->
  property_truthy (lookup_user users name) = false ->
  password <> "" ->
  exists s',
    (signup name password;; logout;; login name password) s
    = (Returns {| username := name |}, s')
    /\ getCurrentUser s' = (Returns (Some {| username := name |}), s').
Proof.
  intros Husers Hnd Hfree Hne.
  unfold bind at 1. rewrite (signup_accepted s users) by done.
  unfold bind at 1. rewrite logout_state. simpl.
  set (stored := js_order (obj_set name password users)).
  set (s1 := {| currentUser := None; localStorage := _ |}).
  assert (Hread : getUsers s1 = (Returns stored, s1)).
  { apply getUsers_stored; [|by apply obj_set_NoDup].
    unfold s1. simpl. rewrite lookup_delete_ne by done.
    rewrite lookup_insert_ne by done. apply lookup_insert_eq. }
  assert (Hget : obj_get name stored = Some password).
  { unfold stored. rewrite obj_get_js_order by (by apply obj_set_NoDup).
    apply obj_get_set. }
  destruct (login_then_getCurrentUser s1 stored name password Hread)
    as (s' & Hlogin & Hcurrent); [done | done |].
  exists s'. by rewrite Hlogin.
Qed.

End AuthFacts.

(** ** The image compositor and the scoring client *)

Section AnalysisFacts.

Import Analysis.

Implicit Types (w : World) (tr : list event).

(** When both images load, [stitchImages] encodes the side-by-side canvas,
    and has revoked the object URL of the target before. *)
Lemma stitchImages_loaded w targetImageUrl generatedImageBase64 tr
    blobUrl (w1 h1 w2 h2 : N) :
  has_context w = true ->
  getLocalImageAsBlobUrl w targetImageUrl = Returns blobUrl ->
  decode w blobUrl = Some (w1, h1) ->
  decode w ("data:image/jpeg;base64," +:+ generatedImageBase64) = Some (w2, h2) ->
  stitchImages w targetImageUrl generatedImageBase64 tr
  = (payload (toDataURL w
                (side_by_side
                   {| src := blobUrl; width := w1; height := h1 |}
                   {| src := "data:image/jpeg;base64," +:+ generatedImageBase64;
                      width := w2; height := h2 |})
                "image/jpeg"),
     tr ++ [CallGetLocalImageAsBlobUrl targetImageUrl]
        ++ (if startsWith blobUrl "blob:" then [RevokeObjectURL blobUrl]
            else [])).
Proof.
  intros Hctx Hblob Htarget Hgenerated.
  unfold stitchImages, bind, log, modify, lift, load. rewrite Hctx. simpl.
  rewrite Hblob, Htarget, Hgenerated. simpl. unfold side_by_side. simpl.
  destruct (startsWith blobUrl "blob:"); simpl;
    destruct (toDataURL w _ "image/jpeg") as [dataUrl|e|]; simpl;
    rewrite <- ?app_assoc, ?app_nil_r; try reflexivity;
    destruct (split "," dataUrl) as [|? [|? ?]]; reflexivity.
Qed.

(** C6.  For every pair of input images that decode, with sizes [w1 x h1]
    for the target and [w2 x h2] for the candidate, the compose operation
    encodes, as JPEG, a canvas of width [w1 + w2] and height [max h1 h2] on
    which the target is drawn at [(0, 0)] and the candidate at [(w1, 0)],
    and returns the payload of that one encoding. *)
Theorem stitchImages_side_by_side w targetImageUrl generatedImageBase64 tr
    blobUrl (w1 h1 w2 h2 : N) :
  has_context w = true ->
  getLocalImageAsBlobUrl w targetImageUrl = Returns blobUrl ->
  decode w blobUrl = Some (w1, h1) ->
  decode w ("data:image/jpeg;base64," +:+ generatedImageBase64) = Some (w2, h2) ->
  let target := {| src := blobUrl; width := w1; height := h1 |} in
  let candidate :=
    {| src := "data:image/jpeg;base64," +:+ generatedImageBase64;
       width := w2; height := h2 |} in
  let canvas :=
    {| canvas_width := w1 + w2;
       canvas_height := N.max h1 h2;
       drawn := [(target, 0%N, 0%N); (candidate, w1, 0%N)] |} in
  fst (stitchImages w targetImageUrl generatedImageBase64 tr)
  = payload (toDataURL w canvas "image/jpeg").
Proof.
  intros Hctx Hblob Htarget Hgenerated. simpl.
  by rewrite (stitchImages_loaded _ _ _ _ _ _ _ _ _ Hctx Hblob Htarget Hgenerated).
Qed.

Lemma stitchImages_side_by_side_witness :
  fst (stitchImages (Samples.world (Returns None)) "/challenges/1.jpg"
         Samples.generated [])
  = Returns "U1RJVENIRUQ=".
Proof.
  apply (stitchImages_side_by_side (Samples.world (Returns None))
           "/challenges/1.jpg" Samples.generated [] Samples.blob
           512 512 1024 768); reflexivity.
Defined.

(** Case analysis on the calls a run goes through, in the order in which
    the run makes them. *)
Ltac call_case :=
  match goal with
  | |- context [has_context ?w] => destruct (has_context w) eqn:?
  | |- context [getAi ?w] => destruct (getAi w) as [[]| |] eqn:?
  | |- context [getLocalImageAsBlobUrl ?w ?u] =>
      destruct (getLocalImageAsBlobUrl w u) eqn:?
  | |- context [decode ?w ?u] => destruct (decode w u) as [[? ?]|] eqn:?
  | |- context [target_fails_first ?w] => destruct (target_fails_first w) eqn:?
  | |- context [startsWith ?u ?p] => destruct (startsWith u p) eqn:?
  | |- context [toDataURL ?w ?c ?t] => destruct (toDataURL w c t) eqn:?
  | |- context [split ?c ?u] => destruct (split c u) as [|? [|? ?]] eqn:?
  | |- context [generateContent ?w ?r] =>
      destruct (generateContent w r) as [[?|]| |] eqn:?
  | |- context [JSON.parse ?t] => destruct (JSON.parse t) eqn:?
  | |- context [well_formed ?v] => destruct (well_formed v) eqn:?
  end.

Ltac run_cases := simpl; repeat (call_case; simpl).

(** [stitchImages] only adds to the trace, and never calls the oracle. *)
Lemma stitchImages_events w targetImageUrl generatedImageBase64 tr :
  exists new,
    snd (stitchImages w targetImageUrl generatedImageBase64 tr) = tr ++ new
    /\ filter is_generate new = [].
Proof.
  unfold stitchImages, bind, log, modify, lift, throw, ret, ill_typed,
    Promise_all, load.
  run_cases; rewrite <- ?app_assoc;
    first [ by exists [] ; rewrite app_nil_r | by eexists ].
Qed.

(** When the target was fetched and one of the images does not decode,
    [stitchImages] throws and the object URL is never revoked. *)
Lemma stitchImages_no_release w targetImageUrl generatedImageBase64 tr blobUrl :
  has_context w = true ->
  getLocalImageAsBlobUrl w targetImageUrl = Returns blobUrl ->
  decode w blobUrl = None
  \/ decode w ("data:image/jpeg;base64," +:+ generatedImageBase64) = None ->
  exists message,
    stitchImages w targetImageUrl generatedImageBase64 tr
    = (Throws (Error message),
       tr ++ [CallGetLocalImageAsBlobUrl targetImageUrl]).
Proof.
  intros Hctx Hblob Hfail.
  unfold stitchImages, bind, log, modify, lift, load, Promise_all.
  rewrite Hctx. simpl. rewrite Hblob.
  destruct Hfail as [Hfail | Hfail]; rewrite Hfail;
    run_cases; eauto.
Qed.

(** C4, at the input where the code departs from it.  The target image was
    fetched into a blob URL, the candidate payload does not decode:
    [stitchImages] throws, and its trace ends without any call of
    [URL.revokeObjectURL]. *)
Theorem stitchImages_keeps_blob_on_failure :
  stitchImages (Samples.world (Returns None)) "/challenges/1.jpg"
    "bm90LWEtanBlZw==" []
  = (Throws (Error "Failed to load generated image from base64"),
     [CallGetLocalImageAsBlobUrl "/challenges/1.jpg"])
  /\ getLocalImageAsBlobUrl (Samples.world (Returns None)) "/challenges/1.jpg"
     = Returns Samples.blob
  /\ startsWith Samples.blob "blob:" = true.
Proof. repeat split; vm_compute; reflexivity. Qed.

(** On the path where both images load, the blob URL is revoked. *)
Lemma stitchImages_releases_when_loaded w targetImageUrl generatedImageBase64
    tr blobUrl (w1 h1 w2 h2 : N) :
  has_context w = true ->
  getLocalImageAsBlobUrl w targetImageUrl = Returns blobUrl ->
  decode w blobUrl = Some (w1, h1) ->
  decode w ("data:image/jpeg;base64," +:+ generatedImageBase64) = Some (w2, h2) ->
  startsWith blobUrl "blob:" = true ->
  snd (stitchImages w targetImageUrl generatedImageBase64 tr)
  = tr ++ [CallGetLocalImageAsBlobUrl targetImageUrl; RevokeObjectURL blobUrl].
Proof.
  intros Hctx Hblob Htarget Hgenerated Hprefix.
  rewrite (stitchImages_loaded _ _ _ _ _ _ _ _ _ Hctx Hblob Htarget Hgenerated).
  by rewrite Hprefix.
Qed.

(** *** The scoring client *)

(** What [analyzeImages] makes of the answer of the oracle, once the steps
    before the call have succeeded. *)
Lemma analyzeImages_pipeline w user challenge generatedImageBase64 userPrompt
    tr stitched tr1 :
  getAi w = Returns tt ->
  stitchImages w (imageUrl challenge) generatedImageBase64 (tr ++ [CallGetAi])
  = (Returns stitched, tr1) ->
  let req := request w user challenge stitched userPrompt in
  analyzeImages w user challenge generatedImageBase64 userPrompt tr
  = try_catch (let* response_text := lift (generateContent w req) in
               read_response w response_text)
              catch_clause
              (tr1 ++ [CallGenerateContent req]).
Proof.
  intros Hai Hstitch req. unfold analyzeImages, try_catch, try_block, bind at 1 2 3 4.
  unfold log at 1, modify, lift at 1. rewrite Hai. simpl. rewrite Hstitch.
  unfold bind, log, modify, lift. simpl. reflexivity.
Qed.

(** A result that [analyzeImages] returns is the parsed text of an answer of
    the oracle, and it passed the test of the source. *)
Lemma analyzeImages_returns_inv w user challenge generatedImageBase64
    userPrompt tr v tr' :
  analyzeImages w user challenge generatedImageBase64 userPrompt tr
  = (Returns v, tr') ->
  exists stitched text,
    generateContent w (request w user challenge stitched userPrompt)
    = Returns (Some text)
    /\ JSON.parse (trim text) = Some v
    /\ well_formed v = true.
Proof.
  unfold analyzeImages, try_catch, try_block, bind at 1 2 3 4.
  unfold log at 1, modify, lift at 1.
  destruct (getAi w) as [[]|e|] eqn:Hai; simpl;
    [|unfold catch_clause, bind, log, modify, throw; simpl; discriminate
     |discriminate].
  destruct (stitchImages w (imageUrl challenge) generatedImageBase64
              (tr ++ [CallGetAi])) as [[stitched|e|] tr1] eqn:Hstitch;
    [|unfold catch_clause, bind, log, modify, throw; simpl; discriminate
     |discriminate].
  unfold bind, log, modify, lift, read_response, catch_clause, throw, ret.
  simpl.
  destruct (generateContent w _) as [[text|]|e|] eqn:Hanswer; simpl;
    try discriminate.
  destruct (JSON.parse (trim text)) as [result|] eqn:Hparse; simpl;
    try discriminate.
  destruct (well_formed result) eqn:Hwf; simpl; try discriminate.
  intros [= <- <-]. eauto.
Qed.

(** The test of the source accepts exactly the objects with a number under
    [similarityScore] and an array under [feedback]. *)
Lemma well_formed_shape (v : json) :
  well_formed v = true
  <-> exists members q items,
        v = JObject members
        /\ obj_get "similarityScore" members = Some (JNumber q)
        /\ obj_get "feedback" members = Some (JArray items).
Proof.
  unfold well_formed, is_number, isArray, JSON.get. split.
  - destruct v as [| | | | |members]; simpl;
      rewrite ?andb_false_r; try discriminate.
    destruct (obj_get "similarityScore" members) as [[| |q| | |]|] eqn:Hscore;
      try discriminate.
    destruct (obj_get "feedback" members) as [[| | | |items|]|] eqn:Hfeedback;
      try discriminate.
    intros _. by exists members, q, items.
  - intros (members & q & items & -> & Hscore & Hfeedback). simpl.
    by rewrite Hscore, Hfeedback.
Qed.

(** C1, as amended.  Once the oracle has answered, [analyzeImages] returns
    a result exactly when the text of the answer, trimmed, parses to an
    object whose [similarityScore] is a number and whose [feedback] is an
    array; the result is that object.  The items of [feedback] and their
    number are not examined.  In every other case (no text, a text that does
    not parse, a field missing or of another type) the call throws an
    [Error] whose message starts with "Analysis failed: ".  The trimming
    is that of [String.prototype.trim]: white space around the answer, of
    ASCII or not (a byte order mark, a no-break space, a line separator),
    does not change the result. *)
Theorem analyzeImages_response_check w user challenge generatedImageBase64
    userPrompt tr stitched tr1 response :
  getAi w = Returns tt ->
  stitchImages w (imageUrl challenge) generatedImageBase64 (tr ++ [CallGetAi])
  = (Returns stitched, tr1) ->
  generateContent w (request w user challenge stitched userPrompt)
  = Returns response ->
  let outcome_ :=
    fst (analyzeImages w user challenge generatedImageBase64 userPrompt tr) in
  (forall v,
     outcome_ = Returns v
     <-> exists text members q items,
           response = Some text
           /\ JSON.parse (trim text) = Some v
           /\ v = JObject members
           /\ obj_get "similarityScore" members = Some (JNumber q)
           /\ obj_get "feedback" members = Some (JArray items))
  /\ ((exists v, outcome_ = Returns v)
      \/ (exists message,
            outcome_ = Throws (Error ("Analysis failed: " +:+ message))))
  /\ (forall lead trail a body z members q items,
        Forall (fun u => white_space u = true) lead ->
        Forall (fun u => white_space u = true) trail ->
        visible_ascii a = true ->
        visible_ascii z = true ->
        response
        = Some (of_chars (concat lead ++ a :: body ++ z :: concat trail)) ->
        JSON.parse (of_chars (a :: body ++ [z])) = Some (JObject members) ->
        obj_get "similarityScore" members = Some (JNumber q) ->
        obj_get "feedback" members = Some (JArray items) ->
        outcome_ = Returns (JObject members)).
Proof.
  intros Hai Hstitch Hanswer outcome_.
  assert (Hcheck :
    (forall v,
       outcome_ = Returns v
       <-> exists text members q items,
             response = Some text
             /\ JSON.parse (trim text) = Some v
             /\ v = JObject members
             /\ obj_get "similarityScore" members = Some (JNumber q)
             /\ obj_get "feedback" members = Some (JArray items))
    /\ ((exists v, outcome_ = Returns v)
        \/ (exists message,
              outcome_ = Throws (Error ("Analysis failed: " +:+ message))))).
  { subst outcome_.
    rewrite (analyzeImages_pipeline _ _ _ _ _ _ _ _ Hai Hstitch). simpl.
    unfold try_catch, bind, lift, read_response, catch_clause, log, modify,
      throw, ret.
    rewrite Hanswer.
    destruct response as [text|]; simpl.
    2:{ split; [|right; eauto].
        intros v. split; [discriminate|]. by intros (? & ? & ? & ? & ? & _). }
    destruct (JSON.parse (trim text)) as [result|] eqn:Hparse; simpl.
    2:{ split; [|right; eauto].
        intros v. split; [discriminate|].
        intros (text' & ? & ? & ? & [= <-] & Hv & _). congruence. }
    destruct (well_formed result) eqn:Hwf; simpl.
    - split; [|left; eauto].
      intros v. split.
      + intros [= <-]. apply well_formed_shape in Hwf
          as (members & q & items & ? & ? & ?).
        by exists text, members, q, items.
      + intros (text' & members & q & items & [= <-] & Hv & _).
        rewrite Hparse in Hv. by injection Hv as ->.
    - split; [|right; eauto].
      intros v. split; [discriminate|].
      intros (text' & members & q & items & [= <-] & Hv & Hshape).
      rewrite Hparse in Hv. injection Hv as ->.
      assert (well_formed v = true) as Hwf'
        by (apply well_formed_shape; by exists members, q, items).
      congruence. }
  destruct Hcheck as [Hiff Hcases]. split; [exact Hiff|]. split; [exact Hcases|].
  intros lead trail a body z members q items Hlead Htrail Ha Hz Htext Hparse
    Hscore Hfeedback.
  apply Hiff. eexists _, members, q, items. split; [exact Htext|].
  by rewrite trim_framed.
Qed.

(** The answer comes after a byte order mark and a line feed, and before a
    line separator, a no-break space and a space. *)
Lemma analyzeImages_response_check_witness :
  fst (analyzeImages (Samples.world (Returns (Some Samples.padded_answer)))
         Samples.student Samples.challenge Samples.generated "a red sunset" [])
  = Returns (JObject [("similarityScore", JNumber 85);
                      ("feedback", JArray [JString "Add the lighting";
                                           JString "Name the style"])]).
Proof.
  apply (proj1 (analyzeImages_response_check
                  (Samples.world (Returns (Some Samples.padded_answer)))
                  Samples.student Samples.challenge Samples.generated
                  "a red sunset" [] "U1RJVENIRUQ="
                  [CallGetAi; CallGetLocalImageAsBlobUrl "/challenges/1.jpg";
                   RevokeObjectURL Samples.blob]
                  (Some Samples.padded_answer)
                  eq_refl eq_refl eq_refl)).
  exists Samples.padded_answer.
  exists [("similarityScore", JNumber 85);
          ("feedback", JArray [JString "Add the lighting";
                               JString "Name the style"])].
  exists 85%Q.
  exists [JString "Add the lighting"; JString "Name the style"].
  repeat split; vm_compute; reflexivity.
Defined.

(** The claim C1 as it stands fails: the oracle answers with an object
    whose [feedback] holds four numbers, and [analyzeImages] returns it. *)
Lemma analyzeImages_accepts_loose_feedback :
  fst (analyzeImages (Samples.world (Returns (Some Samples.loose_answer)))
         Samples.student Samples.challenge Samples.generated "a red sunset" [])
  = Returns (JObject [("similarityScore", JNumber 50);
                      ("feedback", JArray [JNumber 1; JNumber 2;
                                           JNumber 3; JNumber 4])])
  /\ Spec.conforms
       (JObject [("similarityScore", JNumber 50);
                 ("feedback", JArray [JNumber 1; JNumber 2;
                                      JNumber 3; JNumber 4])])
     = false.
Proof. split; vm_compute; reflexivity. Qed.

(** C5, as amended.  Every result that [analyzeImages] returns is the
    parsed answer of the oracle as it is: the oracle was called with the
    stitched image and answered with a text, and the result is what
    [JSON.parse] makes of that text, trimmed; it is an object whose
    [similarityScore] is a number and whose [feedback] is an array.  No
    bound on the score and none on the feedback is part of it: whatever the
    number under [similarityScore] and whatever the items under [feedback],
    an answer of that shape is returned. *)
Theorem analyzeImages_result_shape w user challenge generatedImageBase64
    userPrompt tr :
  (forall v tr',
     analyzeImages w user challenge generatedImageBase64 userPrompt tr
     = (Returns v, tr') ->
     exists stitched text members q items,
       generateContent w (request w user challenge stitched userPrompt)
       = Returns (Some text)
       /\ JSON.parse (trim text) = Some v
       /\ v = JObject members
       /\ obj_get "similarityScore" members = Some (JNumber q)
       /\ obj_get "feedback" members = Some (JArray items))
  /\ (forall stitched tr1 text members q items,
        getAi w = Returns tt ->
        stitchImages w (imageUrl challenge) generatedImageBase64
          (tr ++ [CallGetAi]) = (Returns stitched, tr1) ->
        generateContent w (request w user challenge stitched userPrompt)
        = Returns (Some text) ->
        JSON.parse (trim text) = Some (JObject members) ->
        obj_get "similarityScore" members = Some (JNumber q) ->
        obj_get "feedback" members = Some (JArray items) ->
        fst (analyzeImages w user challenge generatedImageBase64 userPrompt tr)
        = Returns (JObject members)).
Proof.
  split.
  - intros v tr' Hrun.
    apply analyzeImages_returns_inv in Hrun
      as (stitched & text & Hanswer & Hparse & Hwf).
    apply well_formed_shape in Hwf as (members & q & items & Hv & Hscore & Hfb).
    by exists stitched, text, members, q, items.
  - intros stitched tr1 text members q items Hai Hstitch Hanswer Hparse
      Hscore Hfeedback.
    rewrite (analyzeImages_pipeline _ _ _ _ _ _ _ _ Hai Hstitch). simpl.
    unfold try_catch, bind, lift, read_response, ret.
    rewrite Hanswer. simpl. rewrite Hparse. simpl.
    assert (Hwf : well_formed (JObject members) = true)
      by (apply well_formed_shape; by exists members, q, items).
    by rewrite Hwf.
Qed.

Lemma analyzeImages_result_shape_witness :
  exists stitched text members q items,
    generateContent (Samples.world (Returns (Some Samples.good_answer)))
      (request (Samples.world (Returns (Some Samples.good_answer)))
         Samples.student Samples.challenge stitched "a red sunset")
    = Returns (Some text)
    /\ JSON.parse (trim text)
       = Some (JObject [("similarityScore", JNumber 85);
                        ("feedback", JArray [JString "Add the lighting";
                                             JString "Name the style"])])
    /\ JObject [("similarityScore", JNumber 85);
                ("feedback", JArray [JString "Add the lighting";
                                     JString "Name the style"])]
       = JObject members
    /\ obj_get "similarityScore" members = Some (JNumber q)
    /\ obj_get "feedback" members = Some (JArray items).
Proof.
  eapply (proj1 (analyzeImages_result_shape
                   (Samples.world (Returns (Some Samples.good_answer)))
                   Samples.student Samples.challenge Samples.generated
                   "a red sunset" [])).
  vm_compute. reflexivity.
Defined.

(** The claim C5 as it stands fails: the oracle answers with a score of 150
    and four feedback items, one of them a number, and [analyzeImages]
    returns the answer as it is: the score is above 100, the feedback has
    more than 3 items and not all of them are strings. *)
Lemma analyzeImages_returns_out_of_range :
  fst (analyzeImages (Samples.world (Returns (Some Samples.high_answer)))
         Samples.student Samples.challenge Samples.generated "a red sunset" [])
  = Returns (JObject [("similarityScore", JNumber 150);
                      ("feedback", JArray [JString "a"; JString "b";
                                           JString "c"; JNumber 4])])
  /\ Spec.in_range
       (JObject [("similarityScore", JNumber 150);
                 ("feedback", JArray [JString "a"; JString "b";
                                      JString "c"; JNumber 4])])
     = false
  /\ Qle_bool 150 100 = false
  /\ (length [JString "a"; JString "b"; JString "c"; JNumber 4] <=? 3)%nat
     = false
  /\ forallb Spec.is_string [JString "a"; JString "b"; JString "c"; JNumber 4]
     = false.
Proof. repeat split; vm_compute; reflexivity. Qed.

(** *** Failures of the scoring client *)

Lemma analyzeImages_try_catch w user challenge generatedImageBase64
    userPrompt tr :
  analyzeImages w user challenge generatedImageBase64 userPrompt tr
  = match try_block w user challenge generatedImageBase64 userPrompt tr with
    | (Throws cause, tr') =>
        (Throws (rethrow cause),
         tr' ++ [ConsoleError "Failed to get analysis:" cause])
    | r => r
    end.
Proof.
  unfold analyzeImages, try_catch.
  by destruct (try_block _ _ _ _ _ tr) as [[v|cause|] tr'].
Qed.

Lemma read_response_trace w response tr :
  snd (read_response w response tr) = tr.
Proof.
  unfold read_response, throw, ret.
  destruct response as [text|]; [|done].
  destruct (JSON.parse (trim text)) as [v|]; [|done].
  by destruct (well_formed v).
Qed.

(** The [try] block only adds to the trace, and calls the oracle at most
    once. *)
Lemma try_block_events w user challenge generatedImageBase64 userPrompt tr :
  exists new,
    snd (try_block w user challenge generatedImageBase64 userPrompt tr)
    = tr ++ new
    /\ (length (filter is_generate new) <= 1)%nat.
Proof.
  unfold try_block, bind at 1 2 3. unfold log at 1, modify, lift at 1.
  destruct (getAi w) as [[]|e|]; simpl;
    try (exists [CallGetAi]; split; [done | simpl; lia]).
  destruct (stitchImages_events w (imageUrl challenge) generatedImageBase64
              (tr ++ [CallGetAi])) as (snew & Htrace & Hnone).
  destruct (stitchImages w _ _ _) as [[stitched|e|] tr1]; simpl in Htrace;
    subst tr1; rewrite <- app_assoc.
  - unfold bind, log, modify, lift. simpl.
    exists ([CallGetAi] ++ snew ++ [CallGenerateContent
              (request w user challenge stitched userPrompt)]).
    split.
    + destruct (generateContent w _) as [response| |]; simpl;
        rewrite ?read_response_trace, <- ?app_assoc; reflexivity.
    + rewrite !filter_app, Hnone. simpl. lia.
  - exists ([CallGetAi] ++ snew). split; [done|].
    rewrite filter_app, Hnone. simpl. lia.
  - exists ([CallGetAi] ++ snew). split; [done|].
    rewrite filter_app, Hnone. simpl. lia.
Qed.

(** The two shapes of the errors that the [catch] clause throws. *)
Lemma rethrow_shape (cause : thrown) :
  (exists message, rethrow cause = Error ("Analysis failed: " +:+ message))
  \/ rethrow cause = Error "An unknown error occurred during analysis.".
Proof. destruct cause; simpl; eauto. Qed.

(** C3, as amended.  Every failure inside [analyzeImages] reaches the
    caller, as a plain [Error]: with the message "Analysis failed: "
    followed by the message of the cause when the cause is an instance of
    [Error] (an unreachable oracle and a malformed answer alike), and with
    the message "An unknown error occurred during analysis." when it is
    not.  The cause is logged to the console and nothing is retried: a run
    calls the oracle at most once. *)
Theorem analyzeImages_failures w user challenge generatedImageBase64
    userPrompt tr :
  let run := analyzeImages w user challenge generatedImageBase64 userPrompt tr in
  (exists new,
     snd run = tr ++ new /\ (length (filter is_generate new) <= 1)%nat)
  /\ (forall e,
        fst run = Throws e ->
        exists cause,
          e = rethrow cause
          /\ ConsoleError "Failed to get analysis:" cause ∈ snd run
          /\ ((exists message, e = Error ("Analysis failed: " +:+ message))
              \/ e = Error "An unknown error occurred during analysis."))
  /\ (forall cause, getAi w = Throws cause -> fst run = Throws (rethrow cause))
  /\ (forall cause tr1,
        getAi w = Returns tt ->
        stitchImages w (imageUrl challenge) generatedImageBase64
          (tr ++ [CallGetAi]) = (Throws cause, tr1) ->
        fst run = Throws (rethrow cause))
  /\ (forall stitched tr1,
        getAi w = Returns tt ->
        stitchImages w (imageUrl challenge) generatedImageBase64
          (tr ++ [CallGetAi]) = (Returns stitched, tr1) ->
        (forall cause,
           generateContent w (request w user challenge stitched userPrompt)
           = Throws cause ->
           fst run = Throws (rethrow cause))
        /\ (forall text v,
              generateContent w (request w user challenge stitched userPrompt)
              = Returns (Some text) ->
              JSON.parse (trim text) = Some v ->
              well_formed v = false ->
              fst run
              = Throws (rethrow
                          (Error "Model returned malformed analysis data.")))).
Proof.
  intros run. subst run. split; [|split; [|split; [|split]]].
  - rewrite analyzeImages_try_catch.
    destruct (try_block_events w user challenge generatedImageBase64
                userPrompt tr) as (new & Htrace & Hcount).
    destruct (try_block _ _ _ _ _ tr) as [[v|cause|] tr']; simpl in *;
      subst tr'; [by exists new| |by exists new].
    exists (new ++ [ConsoleError "Failed to get analysis:" cause]).
    rewrite app_assoc. split; [done|].
    rewrite filter_app. simpl. rewrite app_nil_r. done.
  - intros e. rewrite analyzeImages_try_catch.
    destruct (try_block _ _ _ _ _ tr) as [[v|cause|] tr']; simpl;
      try discriminate.
    intros [= <-]. exists cause. split; [done|]. split.
    + apply elem_of_app. right. apply list_elem_of_singleton. done.
    + apply rethrow_shape.
  - intros cause Hai. rewrite analyzeImages_try_catch.
    unfold try_block, bind at 1 2. unfold log at 1, modify, lift at 1.
    by rewrite Hai.
  - intros cause tr1 Hai Hstitch. rewrite analyzeImages_try_catch.
    unfold try_block, bind at 1 2 3. unfold log at 1, modify, lift at 1.
    rewrite Hai. simpl. by rewrite Hstitch.
  - intros stitched tr1 Hai Hstitch.
    rewrite (analyzeImages_pipeline _ _ _ _ _ _ _ _ Hai Hstitch). simpl.
    unfold try_catch, bind, lift, read_response. split.
    + intros cause Hanswer. by rewrite Hanswer.
    + intros text v Hanswer Hparse Hwf. by rewrite Hanswer, Hparse, Hwf.
Qed.

(** An unreachable oracle: the failure of [generateContent] reaches the
    caller, wrapped. *)
Lemma analyzeImages_failures_witness :
  fst (analyzeImages Samples.unreachable_oracle Samples.student
         Samples.challenge Samples.generated "a red sunset" [])
  = Throws (Error "Analysis failed: Failed to fetch").
Proof.
  destruct (analyzeImages_failures Samples.unreachable_oracle Samples.student
              Samples.challenge Samples.generated "a red sunset" [])
    as (_ & _ & _ & _ & Hpipeline).
  destruct (Hpipeline "U1RJVENIRUQ="
              [CallGetAi; CallGetLocalImageAsBlobUrl "/challenges/1.jpg";
               RevokeObjectURL Samples.blob]
              eq_refl eq_refl) as [Htransport _].
  exact (Htransport (ErrorInstance "TypeError" "Failed to fetch") eq_refl).
Defined.

(** The claim C3 as it stands fails: the kinds are not distinct in what the
    caller receives.  An oracle that cannot be reached (a transport failure)
    and a target image that cannot be fetched (another exception of a
    dependency) surface as one and the same error, so that no
    classification of the surfaced errors tells the kinds apart. *)
Lemma analyzeImages_kinds_not_distinct :
  ~ exists kind_of : thrown -> Spec.ErrorKind,
      (forall e,
         fst (analyzeImages Samples.unreachable_oracle Samples.student
                Samples.challenge Samples.generated "a red sunset" [])
         = Throws e ->
         kind_of e = Spec.TransportError)
      /\ (forall e,
            fst (analyzeImages Samples.unreachable_image Samples.student
                   Samples.challenge Samples.generated "a red sunset" [])
            = Throws e ->
            kind_of e = Spec.UnknownError).
Proof.
  intros (kind_of & Htransport & Hunknown).
  specialize (Htransport (Error "Analysis failed: Failed to fetch") eq_refl).
  specialize (Hunknown (Error "Analysis failed: Failed to fetch") eq_refl).
  congruence.
Qed.

End AnalysisFacts.

(** * Further properties of the code *)

(** ** Objects that [JSON.parse] builds have distinct keys *)

Section JSONKeys.

Lemma obj_set_keys_NoDup {A} (k : string) (v : A) (members : list (string * A)) :
  NoDup members.*1 -> NoDup (obj_set k v members).*1.
Proof.
  intros Hnd. induction members as [|[k' v'] members IH]; cbn [obj_set].
  - apply NoDup_singleton.
  - rewrite fmap_cons in Hnd. apply NoDup_cons in Hnd as [Hfresh Hnd].
    destruct (String.eqb_spec k' k) as [->|Hne].
    + rewrite fmap_cons. by apply NoDup_cons.
    + rewrite fmap_cons. apply NoDup_cons. split; [|by apply IH].
      simpl. intros Hin. apply Hfresh.
      clear -Hin Hne. induction members as [|[k2 v2] members IH]; simpl in *.
      * apply list_elem_of_singleton in Hin. congruence.
      * destruct (String.eqb_spec k2 k) as [->|Hne2]; simpl in *.
        -- apply elem_of_cons in Hin as [->|Hin]; [congruence|].
           by apply elem_of_cons; right.
        -- apply elem_of_cons in Hin as [->|Hin]; [by left|].
           right. by apply IH.
Qed.

Lemma deliver_ok (v : json) stack s' stack' :
  value_ok v -> Forall frame_ok stack ->
  deliver v stack = Some (s', stack') ->
  state_ok s' /\ Forall frame_ok stack'.
Proof.
  intros Hv Hst. destruct stack as [|[items|members [k|]] st]; simpl;
    intros [= <- <-]; try done.
  - split; [done|]. apply Forall_cons in Hst as [_ Hst]. by apply Forall_cons.
  - split; [done|]. apply Forall_cons in Hst as [Hm Hst].
    apply Forall_cons. split; [|done]. by apply obj_set_keys_NoDup.
Qed.

Lemma step_ok (t : token) s stack s' stack' :
  Forall frame_ok stack ->
  step t s stack = Some (s', stack') ->
  state_ok s' /\ Forall frame_ok stack'.
Proof.
  intros Hst Hstep.
  assert (Hvalue : forall s' stack', value_token t stack = Some (s', stack') ->
                   state_ok s' /\ Forall frame_ok stack').
  { clear Hstep. intros s2 st2. destruct t; simpl; try discriminate;
      try (apply deliver_ok; done).
    - intros [= <- <-]. split; [done|]. apply Forall_cons. split; [apply NoDup_nil_2|done].
    - intros [= <- <-]. split; [done|]. by apply Forall_cons. }
  assert (Hca : forall s' stack', close_array stack = Some (s', stack') ->
                   state_ok s' /\ Forall frame_ok stack').
  { intros s2 st2. unfold close_array. destruct stack as [|[items|? ?] st]; try discriminate.
    apply Forall_cons in Hst as [_ Hst]. by apply deliver_ok. }
  assert (Hco : forall s' stack', close_object stack = Some (s', stack') ->
                   state_ok s' /\ Forall frame_ok stack').
  { intros s2 st2. unfold close_object.
    destruct stack as [|[items|members [k|]] st]; try discriminate.
    apply Forall_cons in Hst as [Hm Hst]. by apply deliver_ok. }
  assert (Hkey : forall s' stack', key_token t stack = Some (s', stack') ->
                   state_ok s' /\ Forall frame_ok stack').
  { intros s2 st2. unfold key_token.
    destruct t; try discriminate.
    destruct stack as [|[items|members [k|]] st]; try discriminate.
    intros [= <- <-]. split; [done|].
    apply Forall_cons in Hst as [Hm Hst]. by apply Forall_cons. }
  destruct s, t; simpl in Hstep; try discriminate; eauto;
    injection Hstep as <- <-; done.
Qed.

Lemma run_ok (ts : list token) : forall s stack v,
  state_ok s -> Forall frame_ok stack ->
  run ts s stack = Some v -> value_ok v.
Proof.
  induction ts as [|t ts IH]; intros s stack v Hs Hst; simpl.
  - destruct s; try discriminate. by intros [= <-].
  - destruct (step t s stack) as [[s' stack']|] eqn:Hstep; [|discriminate].
    destruct (step_ok _ _ _ _ _ Hst Hstep). eauto.
Qed.

(** An object that [JSON.parse] returns has no repeated key. *)
Lemma parse_object_keys (text : string) (members : list (string * json)) :
  JSON.parse text = Some (JObject members) -> NoDup members.*1.
Proof.
  unfold JSON.parse. destruct (lex Normal (to_chars text)) as [ts|]; [|discriminate].
  intros Hrun. by apply (run_ok ts SValue [] _ I (Forall_nil_2 _)) in Hrun.
Qed.

End JSONKeys.

(** ** The session service, further *)

Section AuthExtras.

Import Auth.

Lemma as_strings_keys (members : list (string * json)) : forall users,
  as_strings members = Some users -> users.*1 = members.*1.
Proof.
  induction members as [|[k v] members IH]; intros users; simpl.
  - by intros [= <-].
  - destruct v; try discriminate.
    destruct (as_strings members) as [rest|]; [|discriminate].
    intros [= <-]. rewrite !fmap_cons. simpl. f_equal. by apply IH.
Qed.

(** [getUsers] never changes the state. *)
Lemma getUsers_same_state (s : State) : snd (getUsers s) = s.
Proof.
  unfold getUsers, bind, getItem. simpl.
  destruct (localStorage s !! USERS_KEY) as [[|c raw]|]; simpl; try done.
  destruct (JSON.parse _) as [v|]; [|done].
  by destruct (as_users v).
Qed.

Lemma getUsers_eq (s : State) users :
  fst (getUsers s) = Returns users -> getUsers s = (Returns users, s).
Proof.
  intros H. pose proof (getUsers_same_state s) as Hs.
  destruct (getUsers s) as [o s']. simpl in *. by subst.
Qed.

(** The users map that [getUsers] returns has no repeated name. *)
Lemma getUsers_NoDup (s : State) users :
  fst (getUsers s) = Returns users -> NoDup users.*1.
Proof.
  unfold getUsers, bind, getItem. simpl.
  destruct (localStorage s !! USERS_KEY) as [[|c raw]|]; simpl;
    try (intros [= <-]; apply NoDup_nil_2).
  destruct (JSON.parse _) as [v|] eqn:Hparse; [|discriminate].
  destruct v as [| | | | |members]; try discriminate. simpl.
  destruct (as_strings members) as [us|] eqn:Has; [|discriminate].
  intros [= <-]. rewrite (as_strings_keys _ _ Has).
  by apply parse_object_keys in Hparse.
Qed.

Lemma obj_get_set_ne {A} (k k' : string) (v : A) (members : list (string * A)) :
  k' <> k -> obj_get k' (obj_set k v members) = obj_get k' members.
Proof.
  intros Hne. induction members as [|[k0 v0] members IH]; simpl.
  - apply String.eqb_neq in Hne. rewrite String.eqb_sym in Hne. by rewrite Hne.
  - destruct (String.eqb_spec k0 k) as [->|Hne0]; simpl.
    + apply String.eqb_neq in Hne. rewrite String.eqb_sym in Hne.
      by rewrite Hne.
    + by rewrite IH.
Qed.

(** X1.  [getUsers] reads back the users map that [setUsers] stored, for
    every map without a repeated name, whatever was stored before: the
    map read back has the same names with the same passwords, under every
    name a lookup reads what it read in the map stored, and the names come
    in the order in which [JSON.stringify] listed them, those that are
    array indices first, by ascending value, then the others in the order
    in which they were added; where no name is an array index the map read
    back is the very list of members stored. *)
Theorem setUsers_then_getUsers (s : State) (users : Users) :
  NoDup users.*1 ->
  (setUsers users;; getUsers) s
  = (Returns (js_order users),
     {| currentUser := currentUser s;
        localStorage := <[USERS_KEY := stringify_record users]> (localStorage s) |})
  /\ js_order users ≡ₚ users
  /\ (forall name, obj_get name (js_order users) = obj_get name users)
  /\ (exists indexed,
        js_order users
        = indexed ++ List.filter (fun kv => negb (is_index (fst kv))) users
        /\ Forall (fun kv => is_index (fst kv) = true) indexed
        /\ StronglySorted
             (fun a b => (index_value (fst a) <= index_value (fst b))%N)
             indexed)
  /\ (Forall (fun kv => array_index (fst kv) = None) users ->
      js_order users = users).
Proof.
  intros Hnd. split; [|split; [|split; [|split]]].
  - unfold bind at 1. unfold setUsers, setItem, modify.
    apply getUsers_stored; [|done]. simpl. apply lookup_insert_eq.
  - apply js_order_perm.
  - intros name. by apply obj_get_js_order.
  - exists (map snd (index_members users)).
    destruct (index_members_order users) as [Hsorted Hindex]. by split.
  - apply js_order_plain.
Qed.

Lemma setUsers_then_getUsers_witness :
  (setUsers [("bob", ""); ("7", "seven"); ("asha", "s3cret")];; getUsers) initial
  = (Returns [("7", "seven"); ("bob", ""); ("asha", "s3cret")],
     {| currentUser := None;
        localStorage :=
          <[USERS_KEY := stringify_record
                           [("bob", ""); ("7", "seven"); ("asha", "s3cret")]]> ∅ |}).
Proof.
  apply (setUsers_then_getUsers initial
           [("bob", ""); ("7", "seven"); ("asha", "s3cret")]).
  apply (bool_decide_unpack _). vm_compute. reflexivity.
Defined.

(** X2.  [login] with a password other than the stored one, the stored one
    not being empty, throws "Incorrect password." and changes nothing: the
    session and durable storage stay as they were. *)
Theorem login_wrong_password (s : State) users name stored password :
  fst (getUsers s) = Returns users ->
  obj_get name users = Some stored ->
  stored <> "" ->
  stored <> password ->
  login name password s = (Throws (Error "Incorrect password."), s).
Proof.
  intros Husers Hget Hne Hdiff. apply getUsers_eq in Husers.
  unfold login, bind. rewrite Husers.
  rewrite (property_truthy_own _ _ _ Hget).
  apply String.eqb_neq in Hne. rewrite Hne. simpl.
  unfold lookup_user. rewrite Hget. simpl.
  apply String.eqb_neq in Hdiff. by rewrite Hdiff.
Qed.

Lemma login_wrong_password_witness :
  login "asha" "guess" Samples.asha_registered
  = (Throws (Error "Incorrect password."), Samples.asha_registered).
Proof.
  apply (login_wrong_password Samples.asha_registered [("asha", "s3cret")]
           "asha" "s3cret" "guess");
    [vm_compute; reflexivity | reflexivity | discriminate | discriminate].
Defined.

(** X3.  [login] under a name that is not in the users map (and is not a
    member of [Object.prototype]) throws "User not found. Please sign up
    first." and changes nothing. *)
Theorem login_unknown_user (s : State) users name password :
  fst (getUsers s) = Returns users ->
  obj_get name users = None ->
  name ∉ Object_prototype ->
  login name password s
  = (Throws (Error "User not found. Please sign up first."), s).
Proof.
  intros Husers Hget Hproto. apply getUsers_eq in Husers.
  unfold login, bind. rewrite Husers. unfold lookup_user. rewrite Hget.
  by rewrite bool_decide_eq_false_2.
Qed.

Lemma login_unknown_user_witness :
  login "carol" "pw" Samples.asha_registered
  = (Throws (Error "User not found. Please sign up first."), Samples.asha_registered).
Proof.
  apply (login_unknown_user Samples.asha_registered [("asha", "s3cret")] "carol" "pw");
    [vm_compute; reflexivity | reflexivity |].
  apply (bool_decide_unpack _). vm_compute. reflexivity.
Defined.

(** X5.  The service writes under its two keys only: whatever [login],
    [signup], [logout] and [getCurrentUser] do, every other key of durable
    storage (the saved progress, the mute setting) keeps its value. *)
Theorem auth_keeps_other_keys (s : State) name password key :
  key <> USERS_KEY ->
  key <> CURRENT_USER_KEY ->
  localStorage (snd (login name password s)) !! key = localStorage s !! key
  /\ localStorage (snd (signup name password s)) !! key = localStorage s !! key
  /\ localStorage (snd (logout s)) !! key = localStorage s !! key
  /\ localStorage (snd (getCurrentUser s)) !! key = localStorage s !! key.
Proof.
  intros Hu Hc. pose proof (getUsers_same_state s) as Hsame.
  split; [|split; [|split]].
  - unfold login, bind. destruct (getUsers s) as [[users|e|] s1];
      simpl in *; subst s1; try done.
    destruct (property_truthy _); simpl; [|done].
    destruct (differs _ _); simpl; [done|]. by rewrite lookup_insert_ne.
  - unfold signup, bind. destruct (getUsers s) as [[users|e|] s1];
      simpl in *; subst s1; try done.
    destruct (property_truthy _); simpl; [done|].
    by rewrite !lookup_insert_ne.
  - simpl. by rewrite lookup_delete_ne.
  - unfold getCurrentUser, bind, get_state, getItem. simpl.
    destruct (currentUser s); [done|]. simpl.
    destruct (localStorage s !! CURRENT_USER_KEY) as [[|c raw]|]; try done.
    destruct (JSON.parse _) as [v|]; [|done].
    by destruct (as_user v).
Qed.

Lemma auth_keeps_other_keys_witness :
  localStorage (snd (signup "asha" "s3cret"
                       {| currentUser := None;
                          localStorage := {[ "prompt-challenge-progress" := "{}" ]} |}))
    !! "prompt-challenge-progress"
  = Some "{}".
Proof.
  destruct (auth_keeps_other_keys
              {| currentUser := None;
                 localStorage := {[ "prompt-challenge-progress" := "{}" ]} |}
              "asha" "s3cret" "prompt-challenge-progress")
    as (_ & Hsignup & _); [vm_compute; discriminate | vm_compute; discriminate |].
  rewrite Hsignup. reflexivity.
Defined.

(** X6.  After [logout] nobody is signed in: [getCurrentUser] returns
    [null] right away, and still does after a reload of the page, since the
    stored session is removed. *)
Theorem logout_ends_session (s : State) :
  fst ((logout;; getCurrentUser) s) = Returns None
  /\ fst (getCurrentUser (reload (snd (logout s)))) = Returns None
  /\ localStorage (snd (logout s)) !! CURRENT_USER_KEY = None.
Proof.
  unfold bind at 1. rewrite logout_state.
  unfold getCurrentUser, reload, bind, get_state, getItem. simpl.
  by rewrite lookup_delete_eq.
Qed.

Lemma stringify_user_read (u : User) :
  exists c text,
    stringify_user u = String c text
    /\ (as_user <$> JSON.parse (stringify_user u)) = Some (Some (Some u)).
Proof.
  destruct (stringify_record_truthy [("username", username u)]) as (c & t & Ht).
  exists c, t. split; [done|]. unfold stringify_user.
  rewrite parse_stringify_record by (apply NoDup_singleton). by destruct u.
Qed.

(** A stored session is read back by [getCurrentUser] on a fresh page. *)
Lemma getCurrentUser_restores (s : State) (u : User) :
  currentUser s = None ->
  localStorage s !! CURRENT_USER_KEY = Some (stringify_user u) ->
  getCurrentUser s
  = (Returns (Some u),
     {| currentUser := Some u; localStorage := localStorage s |}).
Proof.
  intros Hnone Hstored. unfold getCurrentUser, bind, get_state, getItem. simpl.
  rewrite Hnone, Hstored. simpl.
  destruct (stringify_user_read u) as (c & text & Htext & Hread).
  rewrite Htext, <- Htext.
  destruct (JSON.parse (stringify_user u)) as [v|]; [|discriminate].
  simpl in Hread. injection Hread as Hread. by rewrite Hread.
Qed.

(** X7.  The session outlives a reload of the page: after a [login] or a
    [signup] that returned the user [u], [getCurrentUser] on the reloaded
    page returns [u] again, read from durable storage, and the state is
    then what it was before the reload. *)
Theorem session_survives_reload (s s' : State) name password (u : User) :
  login name password s = (Returns u, s')
  \/ signup name password s = (Returns u, s') ->
  getCurrentUser (reload s') = (Returns (Some u), s').
Proof.
  pose proof (getUsers_same_state s) as Hsame.
  intros [Hrun | Hrun].
  - unfold login, bind in Hrun. destruct (getUsers s) as [[users|e|] s1];
      simpl in *; subst s1; try discriminate.
    destruct (property_truthy _); simpl in Hrun; [|discriminate].
    destruct (differs _ _); simpl in Hrun; [discriminate|].
    injection Hrun as <- <-.
    rewrite (getCurrentUser_restores _ {| username := name |});
      [done | done | apply lookup_insert_eq].
  - unfold signup, bind in Hrun. destruct (getUsers s) as [[users|e|] s1];
      simpl in *; subst s1; try discriminate.
    destruct (property_truthy _); simpl in Hrun; [discriminate|].
    injection Hrun as <- <-.
    rewrite (getCurrentUser_restores _ {| username := name |});
      [done | done | apply lookup_insert_eq].
Qed.

Lemma session_survives_reload_witness :
  getCurrentUser
    (reload {| currentUser := Some {| username := "asha" |};
               localStorage :=
                 {[ USERS_KEY := stringify_record [("asha", "s3cret")];
                    CURRENT_USER_KEY := stringify_user {| username := "asha" |} ]} |})
  = (Returns (Some {| username := "asha" |}),
     {| currentUser := Some {| username := "asha" |};
        localStorage :=
          {[ USERS_KEY := stringify_record [("asha", "s3cret")];
             CURRENT_USER_KEY := stringify_user {| username := "asha" |} ]} |}).
Proof.
  apply (session_survives_reload initial _ "asha" "s3cret").
  right. vm_compute. reflexivity.
Defined.

(** X8.  A stored session that does not parse is ignored:
    [getCurrentUser] returns [null], throws nothing and leaves the state as
    it was. *)
Theorem getCurrentUser_corrupt_session (s : State) text :
  currentUser s = None ->
  localStorage s !! CURRENT_USER_KEY = Some text ->
  JSON.parse text = None ->
  getCurrentUser s = (Returns None, s).
Proof.
  intros Hnone Hstored Hparse.
  unfold getCurrentUser, bind, get_state, getItem. simpl.
  rewrite Hnone, Hstored. simpl.
  destruct text as [|c text]; [done|]. by rewrite Hparse.
Qed.

Lemma getCurrentUser_corrupt_session_witness :
  getCurrentUser {| currentUser := None;
                    localStorage := {[ CURRENT_USER_KEY := "{username:" ]} |}
  = (Returns None,
     {| currentUser := None;
        localStorage := {[ CURRENT_USER_KEY := "{username:" ]} |}).
Proof.
  apply (getCurrentUser_corrupt_session _ "{username:");
    [reflexivity | reflexivity | vm_compute; reflexivity].
Defined.


(** What an accepted [signup] leaves in durable storage. *)
Lemma signup_stores (s : State) users name password :
  fst (getUsers s) = Returns users ->
  property_truthy (lookup_user users name) = false ->
  exists s',
    signup name password s = (Returns {| username := name |}, s')
    /\ getUsers s' = (Returns (js_order (obj_set name password users)), s')
    /\ NoDup (obj_set name password users).*1.
Proof.
  intros Husers Hfree.
  pose proof (getUsers_NoDup _ _ Husers) as Hnd. apply getUsers_eq in Husers.
  eexists. split; [by apply signup_accepted|]. split; [|by apply obj_set_NoDup].
  apply getUsers_stored; [|by apply obj_set_NoDup]. simpl.
  rewrite lookup_insert_ne by done. apply lookup_insert_eq.
Qed.

(** X9.  A [signup] that is accepted registers the user and keeps every
    other one: the users map read back from durable storage afterwards
    holds the new password under the new name, and under every other name
    what it held before. *)
Theorem signup_registers (s : State) users name password :
  fst (getUsers s) = Returns users ->
  property_truthy (lookup_user users name) = false ->
  exists s' users',
    signup name password s = (Returns {| username := name |}, s')
    /\ getUsers s' = (Returns users', s')
    /\ obj_get name users' = Some password
    /\ (forall other, other <> name -> obj_get other users' = obj_get other users).
Proof.
  intros Husers Hfree.
  destruct (signup_stores s users name password Husers Hfree)
    as (s' & Hsignup & Hread & Hnd).
  exists s', (js_order (obj_set name password users)).
  split; [done|]. split; [done|]. split.
  - rewrite obj_get_js_order by done. apply obj_get_set.
  - intros other Hne. rewrite obj_get_js_order by done.
    by apply obj_get_set_ne.
Qed.

Lemma signup_registers_witness :
  exists s' users',
    signup "carol" "pw" Samples.asha_registered = (Returns {| username := "carol" |}, s')
    /\ getUsers s' = (Returns users', s')
    /\ obj_get "carol" users' = Some "pw"
    /\ (forall other, other <> "carol"
          -> obj_get other users' = obj_get other [("asha", "s3cret")]).
Proof.
  apply (signup_registers Samples.asha_registered [("asha", "s3cret")] "carol" "pw");
    vm_compute; reflexivity.
Defined.

(** X10.  A name can be registered once: after a [signup] that was
    accepted, with a password that is not empty, every further [signup]
    under the same name throws "Username already exists." and changes
    nothing, whatever password it brings. *)
Theorem signup_twice (s : State) users name password :
  fst (getUsers s) = Returns users ->
  property_truthy (lookup_user users name) = false ->
  password <> "" ->
  exists s',
    signup name password s = (Returns {| username := name |}, s')
    /\ forall again,
         signup name again s' = (Throws (Error "Username already exists."), s').
Proof.
  intros Husers Hfree Hne.
  destruct (signup_stores s users name password Husers Hfree)
    as (s' & Hsignup & Hread & Hnd).
  exists s'. split; [done|]. intros again.
  apply (signup_existing_nonempty s' (js_order (obj_set name password users))
           name password); [done | | done].
  rewrite obj_get_js_order by done. apply obj_get_set.
Qed.

Lemma signup_twice_witness :
  exists s',
    signup "carol" "pw" Samples.asha_registered = (Returns {| username := "carol" |}, s')
    /\ forall again,
         signup "carol" again s' = (Throws (Error "Username already exists."), s').
Proof.
  apply (signup_twice Samples.asha_registered [("asha", "s3cret")] "carol" "pw");
    [vm_compute; reflexivity | vm_compute; reflexivity | discriminate].
Defined.

(** X11.  The names of the members of [Object.prototype] cannot be
    registered: under such a name, absent from the users map, [signup]
    throws "Username already exists." and [login] throws "Incorrect
    password.", and neither changes anything. *)
Theorem inherited_name_is_taken (s : State) users name password :
  fst (getUsers s) = Returns users ->
  obj_get name users = None ->
  name ∈ Object_prototype ->
  signup name password s = (Throws (Error "Username already exists."), s)
  /\ login name password s = (Throws (Error "Incorrect password."), s).
Proof.
  intros Husers Hget Hproto. apply getUsers_eq in Husers.
  unfold signup, login, bind. rewrite Husers. unfold lookup_user.
  rewrite Hget. by rewrite bool_decide_eq_true_2.
Qed.

Lemma inherited_name_is_taken_witness :
  signup "toString" "pw" initial
  = (Throws (Error "Username already exists."), initial)
  /\ login "toString" "pw" initial
     = (Throws (Error "Incorrect password."), initial).
Proof.
  apply (inherited_name_is_taken initial [] "toString" "pw");
    [vm_compute; reflexivity | reflexivity |].
  apply (bool_decide_unpack _). vm_compute. reflexivity.
Defined.

(** X12.  Registration and login compose through durable storage: a user
    who signs up under a name that [signup] accepts, with a password that
    is not empty, and logs out, can log in again with that password, and
    is then the current user. *)
Theorem register_then_login (s : State) users name password :
  fst (getUsers s) = Returns users ->
  property_truthy (lookup_user users name) = false ->
  password <> "" ->
  exists s',
    (signup name password;; logout;; login name password) s
    = (Returns {| username := name |}, s')
    /\ getCurrentUser s' = (Returns (Some {| username := name |}), s').
Proof.
  intros Husers Hfree Hne.
  pose proof (getUsers_NoDup _ _ Husers) as Hnd. apply getUsers_eq in Husers.
  by apply (signup_logout_login s users).
Qed.

Lemma register_then_login_witness :
  exists s',
    (signup "carol" "pw";; logout;; login "carol" "pw") Samples.asha_registered
    = (Returns {| username := "carol" |}, s')
    /\ getCurrentUser s' = (Returns (Some {| username := "carol" |}), s').
Proof.
  apply (register_then_login Samples.asha_registered [("asha", "s3cret")] "carol" "pw");
    [vm_compute; reflexivity | vm_compute; reflexivity | discriminate].
Defined.

(** X13.  [signup] under a name that is registered with a password that
    is not empty throws "Username already exists." and writes nothing: the
    stored users map and the session stay as they were. *)
Theorem signup_taken_name (s : State) users name stored password :
  fst (getUsers s) = Returns users ->
  obj_get name users = Some stored ->
  stored <> "" ->
  signup name password s = (Throws (Error "Username already exists."), s).
Proof.
  intros Husers Hget Hne. apply getUsers_eq in Husers.
  by apply (signup_existing_nonempty s users name stored).
Qed.

Lemma signup_taken_name_witness :
  signup "asha" "other" Samples.asha_registered
  = (Throws (Error "Username already exists."), Samples.asha_registered).
Proof.
  apply (signup_taken_name Samples.asha_registered [("asha", "s3cret")]
           "asha" "s3cret" "other");
    [vm_compute; reflexivity | reflexivity | discriminate].
Defined.

End AuthExtras.

(** ** The session service when the browser refuses a write *)

Section AuthQuotaFacts.

Import AuthQuota.

Lemma quota_getUsers_same_state (s : State) : snd (getUsers s) = s.
Proof.
  unfold getUsers, bind, getItem. simpl.
  destruct (localStorage s !! USERS_KEY) as [[|c raw]|]; simpl; try done.
  destruct (JSON.parse _) as [v|]; [|done].
  by destruct (as_users v).
Qed.

(** Over a browser that accepts every write, the service is the one of
    [Auth]. *)
Lemma quota_getUsers_forget (s : State) :
  fst (getUsers s) = fst (Auth.getUsers (forget s)).
Proof.
  unfold getUsers, Auth.getUsers, bind, getItem, Auth.getItem. simpl.
  destruct (localStorage s !! USERS_KEY) as [[|c raw]|]; simpl; try done.
  destruct (JSON.parse _) as [v|]; [|done].
  by destruct (as_users v).
Qed.

Lemma login_accepting (s : State) name password :
  accepts_all s ->
  fst (login name password s) = fst (Auth.login name password (forget s))
  /\ forget (snd (login name password s))
     = snd (Auth.login name password (forget s)).
Proof.
  intros Hall.
  pose proof (quota_getUsers_same_state s) as Hsame.
  pose proof (quota_getUsers_forget s) as Hfst.
  unfold login, Auth.login, bind.
  destruct (getUsers s) as [o s1]. simpl in Hsame, Hfst. subst s1.
  assert (Hsame' : snd (Auth.getUsers (forget s)) = forget s).
  { unfold Auth.getUsers, bind, Auth.getItem. simpl.
    destruct (localStorage s !! USERS_KEY) as [[|c raw]|]; simpl; try done.
    destruct (JSON.parse _) as [v|]; [|done].
    by destruct (as_users v). }
  destruct (Auth.getUsers (forget s)) as [o' s1']. simpl in Hsame', Hfst.
  subst s1' o'. destruct o as [users|e|]; try done.
  destruct (property_truthy _); simpl; [|done].
  destruct (differs _ _); simpl; [done|].
  unfold setCurrentUser, setItem, bind, modify, get_state, throw. simpl.
  by rewrite Hall.
Qed.

Lemma signup_accepting (s : State) name password :
  accepts_all s ->
  fst (signup name password s) = fst (Auth.signup name password (forget s))
  /\ forget (snd (signup name password s))
     = snd (Auth.signup name password (forget s)).
Proof.
  intros Hall.
  pose proof (quota_getUsers_same_state s) as Hsame.
  pose proof (quota_getUsers_forget s) as Hfst.
  unfold signup, Auth.signup, bind.
  destruct (getUsers s) as [o s1]. simpl in Hsame, Hfst. subst s1.
  assert (Hsame' : snd (Auth.getUsers (forget s)) = forget s).
  { unfold Auth.getUsers, bind, Auth.getItem. simpl.
    destruct (localStorage s !! USERS_KEY) as [[|c raw]|]; simpl; try done.
    destruct (JSON.parse _) as [v|]; [|done].
    by destruct (as_users v). }
  destruct (Auth.getUsers (forget s)) as [o' s1']. simpl in Hsame', Hfst.
  subst s1' o'. destruct o as [users|e|]; try done.
  destruct (property_truthy _); simpl; [done|].
  unfold setUsers, setCurrentUser, setItem, bind, modify, get_state, throw.
  simpl. rewrite Hall. simpl. by rewrite Hall.
Qed.

(** X4.  A call of [login] or of [signup] that does not return a user
    leaves the whole state as it was (nothing is written to durable
    storage and the session is not touched), with one exception: the
    browser refused the write of the session.  Then the call throws what
    [setItem] threw, [currentUser] is already the new user and the session
    is not in durable storage; for [signup] the users map, with the new
    user in it, is already written.  (A refused write of the users map
    leaves the state as it was.)  Over a browser that accepts every
    write the exception does not arise. *)
Theorem auth_failure_state (s : State) name password :
  let user := {| username := name |} in
  ((exists u, fst (login name password s) = Returns u)
   \/ snd (login name password s) = s
   \/ exists e,
        refusal s (localStorage s) CURRENT_USER_KEY (stringify_user user)
        = Some e
        /\ login name password s
           = (Throws e,
              {| currentUser := Some user;
                 localStorage := localStorage s;
                 refusal := refusal s |}))
  /\ ((exists u, fst (signup name password s) = Returns u)
      \/ snd (signup name password s) = s
      \/ exists users e,
           fst (getUsers s) = Returns users
           /\ refusal s (localStorage s) USERS_KEY
                (stringify_record (obj_set name password users))
              = None
           /\ refusal s
                (<[USERS_KEY := stringify_record (obj_set name password users)]>
                   (localStorage s))
                CURRENT_USER_KEY (stringify_user user)
              = Some e
           /\ signup name password s
              = (Throws e,
                 {| currentUser := Some user;
                    localStorage :=
                      <[USERS_KEY := stringify_record
                                       (obj_set name password users)]>
                        (localStorage s);
                    refusal := refusal s |}))
  /\ (accepts_all s ->
      ((exists u, fst (login name password s) = Returns u)
       \/ snd (login name password s) = s)
      /\ ((exists u, fst (signup name password s) = Returns u)
          \/ snd (signup name password s) = s)).
Proof.
  intros user. subst user.
  pose proof (quota_getUsers_same_state s) as Hsame.
  assert (Hlogin :
    (exists u, fst (login name password s) = Returns u)
    \/ snd (login name password s) = s
    \/ exists e,
         refusal s (localStorage s) CURRENT_USER_KEY
           (stringify_user {| username := name |}) = Some e
         /\ login name password s
            = (Throws e,
               {| currentUser := Some {| username := name |};
                  localStorage := localStorage s;
                  refusal := refusal s |})).
  { unfold login, bind. destruct (getUsers s) as [[users|e|] s1];
      simpl in *; subst s1; try by (right; left).
    destruct (property_truthy _); simpl; [|by right; left].
    destruct (differs _ _); simpl; [by right; left|].
    unfold setCurrentUser, setItem, bind, modify, get_state, throw. simpl.
    destruct (refusal s (localStorage s) CURRENT_USER_KEY _) as [e|] eqn:Hw;
      simpl; [|left; eauto].
    right. right. by exists e. }
  assert (Hsignup :
    (exists u, fst (signup name password s) = Returns u)
    \/ snd (signup name password s) = s
    \/ exists users e,
         fst (getUsers s) = Returns users
         /\ refusal s (localStorage s) USERS_KEY
              (stringify_record (obj_set name password users))
            = None
         /\ refusal s
              (<[USERS_KEY := stringify_record (obj_set name password users)]>
                 (localStorage s))
              CURRENT_USER_KEY (stringify_user {| username := name |})
            = Some e
         /\ signup name password s
            = (Throws e,
               {| currentUser := Some {| username := name |};
                  localStorage :=
                    <[USERS_KEY := stringify_record
                                     (obj_set name password users)]>
                      (localStorage s);
                  refusal := refusal s |})).
  { unfold signup, bind. destruct (getUsers s) as [[users|e|] s1];
      simpl in *; subst s1; try by (right; left).
    destruct (property_truthy _); simpl; [by right; left|].
    unfold setUsers, setCurrentUser, setItem, bind, modify, get_state, throw.
    simpl.
    destruct (refusal s (localStorage s) USERS_KEY _) as [e|] eqn:Hu;
      simpl; [by right; left|].
    destruct (refusal s (<[USERS_KEY := _]> (localStorage s))
                CURRENT_USER_KEY _) as [e|] eqn:Hc;
      simpl; [|left; eauto].
    right. right. by exists users, e. }
  split; [exact Hlogin|]. split; [exact Hsignup|].
  intros Hall. split.
  - destruct Hlogin as [?|[?|(e & Hrefused & _)]]; [by left | by right|].
    by rewrite Hall in Hrefused.
  - destruct Hsignup as [?|[?|(users & e & _ & _ & Hrefused & _)]];
      [by left | by right|].
    by rewrite Hall in Hrefused.
Qed.

(** The quota is used up once asha is registered: [login] throws what
    [setItem] threw, and asha is the current user all the same. *)
Lemma auth_failure_state_witness :
  login "asha" "s3cret"
    {| currentUser := None;
       localStorage := {[ USERS_KEY := stringify_record [("asha", "s3cret")] ]};
       refusal := fun _ _ _ =>
                    Some (ErrorInstance "QuotaExceededError"
                            "The quota has been exceeded.") |}
  = (Throws (ErrorInstance "QuotaExceededError" "The quota has been exceeded."),
     {| currentUser := Some {| username := "asha" |};
        localStorage := {[ USERS_KEY := stringify_record [("asha", "s3cret")] ]};
        refusal := fun _ _ _ =>
                     Some (ErrorInstance "QuotaExceededError"
                             "The quota has been exceeded.") |}).
Proof.
  destruct (auth_failure_state
              {| currentUser := None;
                 localStorage :=
                   {[ USERS_KEY := stringify_record [("asha", "s3cret")] ]};
                 refusal := fun _ _ _ =>
                              Some (ErrorInstance "QuotaExceededError"
                                      "The quota has been exceeded.") |}
              "asha" "s3cret")
    as ([(u & Hu) | [Hsame | (e & Hrefused & Hlogin)]] & _).
  - vm_compute in Hu. discriminate Hu.
  - vm_compute in Hsame. discriminate Hsame.
  - injection Hrefused as <-. exact Hlogin.
Defined.

End AuthQuotaFacts.

(** ** The progress store, further *)

Section ProgressExtras.

Import Progress.

Implicit Types (cs : list Challenge) (m : ProgressMap).

(** The entry that the loop leaves under a key is the one built for the
    last challenge of the catalog that has this key as its id. *)
Lemma forEach_from_last cs : forall index m k e,
  forEach_from index cs m !! k = Some e ->
  ((k ∉ id <$> cs) /\ m !! k = Some e)
  \/ exists j c,
       cs !! j = Some c /\ id c = k /\ e = initial_entry (index + j)
       /\ forall j' c', (j < j')%nat -> cs !! j' = Some c' -> id c' <> k.
Proof.
  induction cs as [|c0 cs IH]; intros index m k e Hlook; simpl in Hlook.
  - left. split; [apply not_elem_of_nil | done].
  - apply IH in Hlook as [[Hnot Hm] | (j & c & Hj & Hid & He & Hlast)].
    + destruct (decide (id c0 = k)) as [Heq | Hne].
      * right. exists 0%nat, c0. rewrite Heq, lookup_insert_eq in Hm.
        injection Hm as <-. rewrite Nat.add_0_r.
        split; [done|]. split; [done|]. split; [done|].
        intros [|j'] c' Hlt Hj'; [lia|]. simpl in Hj'.
        intros Hk. apply Hnot. rewrite <- Hk.
        apply list_elem_of_fmap. exists c'. split; [done|].
        by apply list_elem_of_lookup_2 in Hj'.
      * left. rewrite lookup_insert_ne in Hm by done. split; [|done].
        rewrite fmap_cons. by apply not_elem_of_cons.
    + right. exists (S j), c. split; [done|]. split; [done|].
      split; [rewrite He; f_equal; lia|].
      intros [|j'] c' Hlt Hj'; [lia|]. simpl in Hj'.
      apply (Hlast j' c'); [lia | done].
Qed.

(** X15.  For every catalog, also one in which an id comes more than once,
    the default progress has exactly the ids of the catalog as its keys;
    every record is zeroed and none is Completed; a record that is Unlocked
    sits under the id of the first challenge, so that at most one record is
    Unlocked; and an id that comes more than once carries the record of its
    last occurrence. *)
Theorem initialProgress_any_catalog cs :
  dom (initialProgress cs) = list_to_set (id <$> cs)
  /\ (size (initialProgress cs) <= length cs)%nat
  /\ forall k e,
       initialProgress cs !! k = Some e ->
       streak e = 0%Z
       /\ previousSimilarityScore e = 0%Q
       /\ status e <> COMPLETED
       /\ (status e = UNLOCKED -> id <$> head cs = Some k)
       /\ exists j c,
            cs !! j = Some c /\ id c = k
            /\ status e = (if (j =? 0)%nat then UNLOCKED else LOCKED)
            /\ forall j' c', (j < j')%nat -> cs !! j' = Some c' -> id c' <> k.
Proof.
  unfold initialProgress. split; [|split].
  - rewrite forEach_from_dom, dom_empty_L. set_solver.
  - rewrite <- size_dom, forEach_from_dom, dom_empty_L, (left_id_L ∅ (∪)).
    rewrite <- (length_fmap id cs). generalize (id <$> cs). intros l.
    induction l as [|x l IH].
    + done.
    + rewrite list_to_set_cons, size_union_alt, size_singleton.
      assert (size (list_to_set (C:=gset Z) l ∖ {[x]})
              <= size (list_to_set (C:=gset Z) l))%nat
        by (apply subseteq_size; set_solver).
      simpl. lia.
  - intros k e Hlook.
    apply forEach_from_last in Hlook as [[_ Hempty] | (j & c & Hj & Hid & He & Hlast)];
      [by rewrite lookup_empty in Hempty|].
    simpl in He. subst e. unfold initial_entry. simpl.
    split; [done|]. split; [done|]. split; [by destruct j|]. split.
    + destruct j as [|j]; [|discriminate]. intros _.
      destruct cs as [|c0 cs]; [done|]. simpl in *. by injection Hj as ->; rewrite Hid.
    + by exists j, c.
Qed.

(** X14.  Loading the progress never throws and never writes: for every
    state of durable storage it returns normally, leaves storage as it was
    and adds no write to the trace; the progress is afterwards the default
    map, or the value that the stored text parses to, taken unchecked. *)
Theorem loadProgress_never_throws cs (s : State) :
  let r := loadProgress cs s in
  fst r = Returns tt
  /\ localStorage (snd r) = localStorage s
  /\ (exists new,
        trace (snd r) = trace s ++ new
        /\ forall key value, SetItem key value ∉ new)
  /\ (challengeProgress (snd r) = Built (initialProgress cs)
      \/ exists text v,
           localStorage s !! PROGRESS_STORAGE_KEY = Some text
           /\ JSON.parse text = Some v
           /\ challengeProgress (snd r) = Parsed v).
Proof.
  unfold loadProgress, try_catch, bind, getItem. simpl.
  destruct (localStorage s !! PROGRESS_STORAGE_KEY) as [[|c text]|] eqn:Hsaved;
    simpl.
  - repeat split; [|by left]. exists []. rewrite app_nil_r. split; [done|].
    intros ? ?. apply not_elem_of_nil.
  - destruct (JSON.parse (String c text)) as [v|] eqn:Hparse; simpl.
    + repeat split; [|right; by exists (String c text), v].
      exists []. rewrite app_nil_r. split; [done|].
      intros ? ?. apply not_elem_of_nil.
    + repeat split; [|by left]. eexists. split; [done|].
      intros key value Hin. apply list_elem_of_singleton in Hin. discriminate.
  - repeat split; [|by left]. exists []. rewrite app_nil_r. split; [done|].
    intros ? ?. apply not_elem_of_nil.
Qed.




(** X17.  The stored text is not validated: when it parses to [null],
    loading installs [null] as the progress, and the persistence effect
    that follows throws the [TypeError] of [Object.keys(null)], writing
    nothing. *)
Theorem stored_null_breaks_persistence stringify cs (s : State) text :
  localStorage s !! PROGRESS_STORAGE_KEY = Some text ->
  JSON.parse text = Some JNull ->
  (loadProgress cs;; persistProgress stringify) s
  = (Throws (ErrorInstance "TypeError"
               "Cannot convert undefined or null to object"),
     {| challengeProgress := Parsed JNull;
        localStorage := localStorage s;
        trace := trace s |}).
Proof.
  intros Hsaved Hparse. unfold bind at 1.
  by rewrite (loadProgress_parsed cs s text JNull).
Qed.

Lemma stored_null_breaks_persistence_witness :
  (loadProgress Samples.catalog;; persistProgress (fun _ => "{}"))
    {| challengeProgress := Built ∅;
       localStorage := {[ PROGRESS_STORAGE_KEY := "null" ]};
       trace := [] |}
  = (Throws (ErrorInstance "TypeError"
               "Cannot convert undefined or null to object"),
     {| challengeProgress := Parsed JNull;
        localStorage := {[ PROGRESS_STORAGE_KEY := "null" ]};
        trace := [] |}).
Proof.
  exact (stored_null_breaks_persistence (fun _ => "{}") Samples.catalog
           {| challengeProgress := Built ∅;
              localStorage := {[ PROGRESS_STORAGE_KEY := "null" ]};
              trace := [] |} "null" eq_refl eq_refl).
Defined.



End ProgressExtras.

(** ** The mute setting *)

Section MuteFacts.

Import Mute.



(** X20.  Reading the initial mute setting never throws and never writes.
    It is [false], with nothing logged, when nothing is stored and when
    the empty text is stored; it is the stored boolean, with nothing
    logged, when [true] or [false] is stored; and when the stored text
    does not parse it is [false] and the one thing done is to log the
    [SyntaxError] to the console with the message "Failed to parse mute
    state from local storage".  Durable storage is left as it was in
    every case. *)
Theorem initialMuted_fallback (s : State) :
  (forall e, fst (initialMuted s) <> Throws e)
  /\ localStorage (snd (initialMuted s)) = localStorage s
  /\ (localStorage s !! MUTE_STORAGE_KEY = None
      \/ localStorage s !! MUTE_STORAGE_KEY = Some EmptyString ->
      initialMuted s = (Returns false, s))
  /\ (forall b,
        localStorage s !! MUTE_STORAGE_KEY = Some (stringify_bool b) ->
        initialMuted s = (Returns b, s))
  /\ (forall text,
        localStorage s !! MUTE_STORAGE_KEY = Some text ->
        text <> EmptyString ->
        JSON.parse text = None ->
        initialMuted s
        = (Returns false,
           {| isMuted := isMuted s;
              localStorage := localStorage s;
              trace := trace s
                       ++ [Progress.ConsoleError
                             "Failed to parse mute state from local storage"
                             (SyntaxError text)];
              refusal := refusal s |})).
Proof.
  unfold initialMuted, try_catch, bind, getItem. simpl.
  split; [|split; [|split; [|split]]].
  - intros e.
    destruct (localStorage s !! MUTE_STORAGE_KEY) as [[|c text]|]; try done.
    destruct (JSON.parse _) as [[]|]; done.
  - destruct (localStorage s !! MUTE_STORAGE_KEY) as [[|c text]|]; try done.
    destruct (JSON.parse _) as [[]|]; done.
  - by intros [-> | ->].
  - intros b ->. by destruct b.
  - intros text -> Hne Hparse. destruct text as [|c text]; [done|].
    by rewrite Hparse.
Qed.

(** A stored text that is not JSON. *)
Lemma initialMuted_fallback_witness :
  initialMuted {| isMuted := false;
                  localStorage := {[ MUTE_STORAGE_KEY := "yes" ]};
                  trace := [];
                  refusal := fun _ _ _ => None |}
  = (Returns false,
     {| isMuted := false;
        localStorage := {[ MUTE_STORAGE_KEY := "yes" ]};
        trace := [Progress.ConsoleError
                    "Failed to parse mute state from local storage"
                    (SyntaxError "yes")];
        refusal := fun _ _ _ => None |}).
Proof.
  destruct (initialMuted_fallback
              {| isMuted := false;
                 localStorage := {[ MUTE_STORAGE_KEY := "yes" ]};
                 trace := [];
                 refusal := fun _ _ _ => None |})
    as (_ & _ & _ & _ & Hcorrupt).
  apply (Hcorrupt "yes"); [reflexivity | discriminate | vm_compute; reflexivity].
Defined.

End MuteFacts.

(** ** The analysis service, further *)

Section AnalysisExtras.

Import Analysis.

Implicit Types (w : World) (tr : list event).

(** *** [getUserName] *)

(** The first piece of [s.split(sep)]: what comes before the first
    separator. *)
Lemma split_chars_hd (sep : ascii) (cs : chars) : forall cur,
  exists pre post,
    hd "" (split_chars sep cur cs) = of_chars (rev cur ++ pre)
    /\ cs = pre ++ post
    /\ (sep ∉ pre)
    /\ (post = [] \/ exists t, post = sep :: t).
Proof.
  induction cs as [|c cs IH]; intros cur; simpl.
  - exists [], []. rewrite app_nil_r. repeat split; [apply not_elem_of_nil | by left].
  - destruct (Ascii.eqb_spec c sep) as [->|Hne]; simpl.
    + exists [], (sep :: cs). rewrite app_nil_r.
      repeat split; [apply not_elem_of_nil | right; eauto].
    + destruct (IH (c :: cur)) as (pre & post & Hhd & -> & Hnot & Hpost).
      exists (c :: pre), post. simpl in Hhd. rewrite <- app_assoc in Hhd.
      repeat split; [done | | done].
      apply not_elem_of_cons. split; [congruence | done].
Qed.

(** [upper] moves the letters [a]-[z] to [A]-[Z] and no other
    character. *)
Lemma upper_code (c : ascii) :
  code (upper c)
  = (if (97 <=? code c) && (code c <=? 122) then code c - 32 else code c)%N.
Proof.
  destruct c as [[] [] [] [] [] [] [] []]; reflexivity.
Qed.

(** X21.  The name put into the system prompt is the part of the e-mail
    address before its first [@] or [.], with its first character in upper
    case, and nothing is thrown for any address.  The name is empty when
    the address is empty or starts with [@] or [.].  A first character of
    ASCII is replaced by its upper case ([a]-[z] become [A]-[Z], every
    other one stays) and the rest is kept; a first character of two or
    three bytes is replaced by what [toUpperCase] of the engine makes of
    it, which may be longer, and the rest is kept. *)
Theorem getUserName_is_leading_part w (email : string) :
  exists first rest,
    getUserName w email = capitalize (toUpperCase w) (of_chars first)
    /\ to_chars email = first ++ rest
    /\ ("@"%char ∉ first) /\ ("."%char ∉ first)
    /\ (rest = [] \/ exists c t, rest = c :: t /\ (c = "@" \/ c = ".")%char)
    /\ (first = [] -> getUserName w email = "")
    /\ (forall c t,
          first = c :: t ->
          (code c < 128)%N ->
          exists C,
            getUserName w email = of_chars (C :: t)
            /\ code C
               = (if (97 <=? code c) && (code c <=? 122) then code c - 32
                  else code c)%N)
    /\ (forall c1 c2 t,
          first = c1 :: c2 :: t ->
          (194 <= code c1 <= 223)%N ->
          getUserName w email
          = toUpperCase w (of_chars [c1; c2]) +:+ of_chars t)
    /\ (forall c1 c2 c3 t,
          first = c1 :: c2 :: c3 :: t ->
          (224 <= code c1 <= 239)%N ->
          getUserName w email
          = toUpperCase w (of_chars [c1; c2; c3]) +:+ of_chars t).
Proof.
  unfold getUserName, split.
  destruct (split_chars_hd "@" (to_chars email) [])
    as (pre1 & post1 & Hhd1 & Hemail & Hnot1 & Hpost1).
  rewrite Hhd1. simpl. rewrite to_of_chars.
  destruct (split_chars_hd "." pre1 [])
    as (pre2 & post2 & Hhd2 & Hpre1 & Hnot2 & Hpost2).
  rewrite Hhd2. simpl.
  assert (Hat : "@"%char ∉ pre2).
  { intros Hin. apply Hnot1. rewrite Hpre1. apply elem_of_app. by left. }
  exists pre2, (post2 ++ post1).
  split; [done|]. split; [by rewrite Hemail, Hpre1, <- app_assoc|].
  split; [done|]. split; [done|]. split; [|split; [|split; [|split]]].
  - destruct Hpost2 as [-> | (t & ->)]; simpl.
    + destruct Hpost1 as [-> | (t & ->)]; [by left | right; eauto].
    + right. eauto.
  - by intros ->.
  - intros c t -> Hc. exists (upper c). split; [|apply upper_code].
    unfold capitalize. rewrite to_of_chars. cbv zeta.
    apply N.ltb_lt in Hc. by rewrite Hc.
  - intros c1 c2 t -> [Hlo Hhi]. unfold capitalize. rewrite to_of_chars.
    cbv zeta.
    assert (Hascii : (code c1 <? 128)%N = false) by (apply N.ltb_ge; lia).
    apply N.leb_le in Hlo, Hhi. by rewrite Hascii, Hlo, Hhi.
  - intros c1 c2 c3 t -> [Hlo Hhi]. unfold capitalize. rewrite to_of_chars.
    cbv zeta.
    assert (Hascii : (code c1 <? 128)%N = false) by (apply N.ltb_ge; lia).
    assert (Htwo : ((194 <=? code c1) && (code c1 <=? 223))%N = false).
    { apply andb_false_iff. right. apply N.leb_gt. lia. }
    apply N.leb_le in Hlo, Hhi. by rewrite Hascii, Htwo, Hlo, Hhi.
Qed.

(** With the case mapping of the sample world. *)
Example getUserName_samples :
  getUserName Samples.unreachable_image "john.doe@example.com" = "John"
  /\ getUserName Samples.unreachable_image "élodie@example.com" = "Élodie"
  /\ getUserName Samples.unreachable_image "ßeta.x@example.com" = "SSeta"
  /\ getUserName Samples.unreachable_image ".hidden@example.com" = "".
Proof. repeat split; vm_compute; reflexivity. Qed.

(** *** [stitchImages] *)

Ltac world_case :=
  match goal with
  | |- context [has_context ?w] => destruct (has_context w) eqn:?
  | |- context [getLocalImageAsBlobUrl ?w ?u] =>
      destruct (getLocalImageAsBlobUrl w u) eqn:?
  | |- context [decode ?w ?u] => destruct (decode w u) as [[? ?]|] eqn:?
  | |- context [target_fails_first ?w] => destruct (target_fails_first w) eqn:?
  | |- context [startsWith ?u ?p] => destruct (startsWith u p) eqn:?
  | |- context [toDataURL ?w ?c ?t] => destruct (toDataURL w c t) eqn:?
  | |- context [split ?c ?u] => destruct (split c u) as [|? [|? ?]] eqn:?
  end.

Ltac world_cases := simpl; repeat (world_case; simpl).

(** X22.  [stitchImages] revokes at most one object URL, and only the one
    it was given for the target image, only if that URL starts with
    [blob:], and only once both images have loaded. *)
Theorem stitchImages_revokes_own_blob w targetImageUrl generatedImageBase64 tr :
  exists new,
    snd (stitchImages w targetImageUrl generatedImageBase64 tr) = tr ++ new
    /\ (length (filter is_revoke new) <= 1)%nat
    /\ forall url,
         RevokeObjectURL url ∈ new ->
         getLocalImageAsBlobUrl w targetImageUrl = Returns url
         /\ startsWith url "blob:" = true
         /\ is_Some (decode w url)
         /\ is_Some (decode w ("data:image/jpeg;base64,"
                               +:+ generatedImageBase64)).
Proof.
  unfold stitchImages, bind, log, modify, lift, throw, ret, ill_typed,
    Promise_all, load.
  world_cases; rewrite <- ?app_assoc;
    (eexists; split; [first [reflexivity | symmetry; apply app_nil_r] |]);
    (split; [simpl; lia |]);
    intros url Hin; simpl in Hin;
    repeat (apply elem_of_cons in Hin as [Hin | Hin]; try discriminate);
    try (by apply elem_of_nil in Hin);
    injection Hin as <-; eauto.
Qed.

(** X24.  The failures of [stitchImages] before any image is loaded.
    Without a 2D context it throws "Could not get canvas context" and does
    nothing else: the target image is not even fetched.  When the fetch of
    the target image fails, it throws what the fetch threw, as it is, and
    nothing is decoded, drawn or revoked. *)
Theorem stitchImages_early_failure w targetImageUrl generatedImageBase64 tr :
  (has_context w = false ->
   stitchImages w targetImageUrl generatedImageBase64 tr
   = (Throws (Error "Could not get canvas context"), tr))
  /\ (forall e,
        has_context w = true ->
        getLocalImageAsBlobUrl w targetImageUrl = Throws e ->
        stitchImages w targetImageUrl generatedImageBase64 tr
        = (Throws e, tr ++ [CallGetLocalImageAsBlobUrl targetImageUrl])).
Proof.
  unfold stitchImages, bind, log, modify, lift, throw. split.
  - by intros ->.
  - intros e -> Hfetch. simpl. by rewrite Hfetch.
Qed.

(** X25.  When an image does not load, [stitchImages] throws an [Error]
    that tells which one: "Failed to load target image: " followed by the
    URL it was called with (not the object URL) for the target, "Failed to
    load generated image from base64" for the candidate; when both fail,
    the one whose failure comes first decides. *)
Theorem stitchImages_load_failure w targetImageUrl generatedImageBase64 tr
    blobUrl :
  has_context w = true ->
  getLocalImageAsBlobUrl w targetImageUrl = Returns blobUrl ->
  let candidate := "data:image/jpeg;base64," +:+ generatedImageBase64 in
  (decode w blobUrl = None ->
   is_Some (decode w candidate) \/ target_fails_first w = true ->
   fst (stitchImages w targetImageUrl generatedImageBase64 tr)
   = Throws (Error ("Failed to load target image: " +:+ targetImageUrl)))
  /\ (decode w candidate = None ->
      is_Some (decode w blobUrl) \/ target_fails_first w = false ->
      fst (stitchImages w targetImageUrl generatedImageBase64 tr)
      = Throws (Error "Failed to load generated image from base64")).
Proof.
  intros Hctx Hblob candidate. subst candidate.
  unfold stitchImages, bind, log, modify, lift, load, Promise_all.
  rewrite Hctx. simpl. rewrite Hblob. split.
  - intros -> [[[? ?] ->] | ->]; [done|].
    by destruct (decode w _) as [[? ?]|].
  - intros -> [[[? ?] ->] | ->]; [done|].
    by destruct (decode w _) as [[? ?]|].
Qed.

Lemma stitchImages_load_failure_witness :
  fst (stitchImages (Samples.world (Returns None)) "/challenges/1.jpg"
         "bm90LWEtanBlZw==" [])
  = Throws (Error "Failed to load generated image from base64").
Proof.
  apply (proj2 (stitchImages_load_failure (Samples.world (Returns None))
                  "/challenges/1.jpg" "bm90LWEtanBlZw==" [] Samples.blob
                  eq_refl eq_refl));
    [reflexivity | left; vm_compute; eauto].
Defined.

(** *** [analyzeImages] *)

(** The answer of the oracle is read without any further call. *)
Lemma answer_trace w (o : outcome (option string)) tr :
  snd ((let* response_text := lift o in read_response w response_text) tr)
  = tr.
Proof.
  unfold bind, lift. destruct o as [r| |]; simpl; try done.
  apply read_response_trace.
Qed.

Lemma not_generate_in (req : Request) (evs : list event) :
  filter is_generate evs = [] -> CallGenerateContent req ∉ evs.
Proof.
  intros Hnone Hin.
  assert (Hf : CallGenerateContent req ∈ filter is_generate evs)
    by (by apply list_elem_of_filter).
  rewrite Hnone in Hf. by apply elem_of_nil in Hf.
Qed.

Lemma try_block_calls w user challenge generatedImageBase64 userPrompt tr :
  exists new,
    snd (try_block w user challenge generatedImageBase64 userPrompt tr)
    = tr ++ new
    /\ forall req,
         CallGenerateContent req ∈ new ->
         getAi w = Returns tt
         /\ exists stitched tr1,
              stitchImages w (imageUrl challenge) generatedImageBase64
                (tr ++ [CallGetAi]) = (Returns stitched, tr1)
              /\ req = request w user challenge stitched userPrompt
              /\ inlineData req = stitched
              /\ mimeType req = "image/jpeg"
              /\ model req = "gemini-2.5-flash".
Proof.
  unfold try_block, bind at 1 2 3. unfold log at 1, modify, lift at 1.
  destruct (getAi w) as [[]|e|] eqn:Hai; simpl.
  2,3: exists [CallGetAi]; split; [done|];
       intros req Hin; apply list_elem_of_singleton in Hin; discriminate.
  destruct (stitchImages_events w (imageUrl challenge) generatedImageBase64
              (tr ++ [CallGetAi])) as (snew & Htrace & Hnone).
  destruct (stitchImages w _ _ _) as [[stitched|e|] tr1] eqn:Hstitch;
    simpl in Htrace; subst tr1.
  - unfold bind at 1. unfold log, modify. simpl.
    rewrite answer_trace.
    exists ([CallGetAi] ++ snew
            ++ [CallGenerateContent
                  (request w user challenge stitched userPrompt)]).
    split; [by rewrite <- !app_assoc|].
    intros req Hin. split; [done|].
    exists stitched, ((tr ++ [CallGetAi]) ++ snew). split; [done|].
    apply elem_of_cons in Hin as [Hin | Hin]; [discriminate|].
    apply elem_of_app in Hin as [Hin | Hin];
      [by apply not_generate_in in Hin|].
    apply list_elem_of_singleton in Hin. by injection Hin as ->.
  - exists ([CallGetAi] ++ snew). split; [by rewrite <- !app_assoc|].
    intros req Hin. exfalso.
    apply elem_of_cons in Hin as [Hin | Hin]; [discriminate|].
    by apply not_generate_in in Hin.
  - exists ([CallGetAi] ++ snew). split; [by rewrite <- !app_assoc|].
    intros req Hin. exfalso.
    apply elem_of_cons in Hin as [Hin | Hin]; [discriminate|].
    by apply not_generate_in in Hin.
Qed.

(** X23.  The oracle is called only with the composite image: whenever a
    run of [analyzeImages] calls [generateContent], [getAi] has returned,
    [stitchImages] has returned the stitched image, and the request is the
    one built from the user, the challenge, that image and the prompt:
    the model is [gemini-2.5-flash]; the text part is the user turn, with
    the name and the description of the challenge and the prompt of the
    student between quotes; the image part is the stitched image, as
    [image/jpeg]; the system instruction is the system prompt, with the
    name of the student that [getUserName] takes from the e-mail address;
    the answer is asked as [application/json] under the schema of an
    object with a number [similarityScore] and an array of strings
    [feedback], both required. *)
Theorem oracle_called_after_stitching w user challenge generatedImageBase64
    userPrompt tr :
  exists new,
    snd (analyzeImages w user challenge generatedImageBase64 userPrompt tr)
    = tr ++ new
    /\ forall req,
         CallGenerateContent req ∈ new ->
         getAi w = Returns tt
         /\ exists stitched tr1,
              stitchImages w (imageUrl challenge) generatedImageBase64
                (tr ++ [CallGetAi]) = (Returns stitched, tr1)
              /\ req = request w user challenge stitched userPrompt
              /\ inlineData req = stitched
              /\ mimeType req = "image/jpeg"
              /\ model req = "gemini-2.5-flash"
              /\ text req
                 = " Challenge Name: " +:+ dq +:+ name challenge +:+ dq
                   +:+ "." +:+ nl
                   +:+ "The goal is: " +:+ dq +:+ description challenge +:+ dq
                   +:+ "." +:+ nl
                   +:+ "The student's prompt was: " +:+ dq +:+ userPrompt
                   +:+ dq +:+ "." +:+ nl
              /\ systemInstruction req
                 = "You are an expert image analysis AI for a prompt engineering learning tool. Your feedback tone should be quirky and vague, in simple and clear Indian English. Keep technical terms in pure English."
                   +:+ nl
                   +:+ "A student named " +:+ getUserName w (email user)
                   +:+ " is trying to generate an image to match a target image for a prompt engineering challenge."
                   +:+ nl
                   +:+ "Analyze the provided image which contains two images side-by-side. The image on the LEFT is the "
                   +:+ dq +:+ "target image" +:+ dq
                   +:+ ", and the image on the RIGHT is the student's generated image."
                   +:+ nl +:+ nl
                   +:+ "Provide:" +:+ nl
                   +:+ "1. A 'similarityScore' from 0-100." +:+ nl
                   +:+ "2. A 'feedback' JSON array of up to 3 strings with prompt improvement suggestions."
                   +:+ nl +:+ nl
                   +:+ "Respond ONLY with a JSON object matching the provided schema."
              /\ responseMimeType req = "application/json"
              /\ schema req
                 = TypeObject
                     [ ("similarityScore",
                        TypeNumber "A similarity score from 0-100 comparing the generated image to the target image.");
                       ("feedback",
                        TypeArray TypeString
                          "An array of up to 3 strings with prompt improvement suggestions.") ]
                     [ "similarityScore"; "feedback" ].
Proof.
  destruct (try_block_calls w user challenge generatedImageBase64 userPrompt tr)
    as (new & Htrace & Hcalls).
  assert (Hfields : forall req,
            CallGenerateContent req ∈ new ->
            getAi w = Returns tt
            /\ exists stitched tr1,
                 stitchImages w (imageUrl challenge) generatedImageBase64
                   (tr ++ [CallGetAi]) = (Returns stitched, tr1)
                 /\ req = request w user challenge stitched userPrompt).
  { intros req Hin.
    destruct (Hcalls req Hin) as (Hai & stitched & tr1 & Hstitch & Hreq & _).
    split; [done|]. by exists stitched, tr1. }
  assert (Hreq : forall req,
            CallGenerateContent req ∈ new ->
            getAi w = Returns tt
            /\ exists stitched tr1,
                 stitchImages w (imageUrl challenge) generatedImageBase64
                   (tr ++ [CallGetAi]) = (Returns stitched, tr1)
                 /\ req = request w user challenge stitched userPrompt
                 /\ inlineData req = stitched
                 /\ mimeType req = "image/jpeg"
                 /\ model req = "gemini-2.5-flash"
                 /\ text req = userTurnPrompt challenge userPrompt
                 /\ systemInstruction req
                    = systemPrompt (getUserName w (email user))
                 /\ responseMimeType req = "application/json"
                 /\ schema req = responseSchema).
  { intros req Hin.
    destruct (Hfields req Hin) as (Hai & stitched & tr1 & Hstitch & ->).
    split; [done|]. exists stitched, tr1. repeat split; done. }
  clear Hcalls Hfields.
  rewrite analyzeImages_try_catch.
  destruct (try_block _ _ _ _ _ tr) as [[v|cause|] tr']; simpl in *; subst tr'.
  - exists new. split; [done|]. intros req Hin.
    destruct (Hreq req Hin) as (Hai & stitched & tr1 & Hrest).
    split; [done|]. exists stitched, tr1. exact Hrest.
  - exists (new ++ [ConsoleError "Failed to get analysis:" cause]).
    rewrite app_assoc. split; [done|].
    intros req [Hin | Hin]%elem_of_app.
    + destruct (Hreq req Hin) as (Hai & stitched & tr1 & Hrest).
      split; [done|]. exists stitched, tr1. exact Hrest.
    + apply list_elem_of_singleton in Hin. discriminate.
  - exists new. split; [done|]. intros req Hin.
    destruct (Hreq req Hin) as (Hai & stitched & tr1 & Hrest).
    split; [done|]. exists stitched, tr1. exact Hrest.
Qed.


Lemma stitchImages_no_console w targetImageUrl generatedImageBase64 tr :
  exists new,
    snd (stitchImages w targetImageUrl generatedImageBase64 tr) = tr ++ new
    /\ filter is_console new = [].
Proof.
  unfold stitchImages, bind, log, modify, lift, throw, ret, ill_typed,
    Promise_all, load.
  world_cases; rewrite <- ?app_assoc;
    first [ by exists [] ; rewrite app_nil_r | by eexists ].
Qed.

Lemma try_block_no_console w user challenge generatedImageBase64 userPrompt tr :
  exists new,
    snd (try_block w user challenge generatedImageBase64 userPrompt tr)
    = tr ++ new
    /\ filter is_console new = [].
Proof.
  unfold try_block, bind at 1 2 3. unfold log at 1, modify, lift at 1.
  destruct (getAi w) as [[]|e|] eqn:Hai; simpl;
    try (by exists [CallGetAi]).
  destruct (stitchImages_no_console w (imageUrl challenge) generatedImageBase64
              (tr ++ [CallGetAi])) as (snew & Htrace & Hnone).
  destruct (stitchImages w _ _ _) as [[stitched|e|] tr1] eqn:Hstitch;
    simpl in Htrace; subst tr1.
  - unfold bind at 1. unfold log, modify. simpl. rewrite answer_trace.
    exists ([CallGetAi] ++ snew
            ++ [CallGenerateContent
                  (request w user challenge stitched userPrompt)]).
    split; [by rewrite <- !app_assoc|].
    by rewrite !filter_app, Hnone.
  - exists ([CallGetAi] ++ snew). split; [by rewrite <- !app_assoc|].
    by rewrite filter_app, Hnone.
  - exists ([CallGetAi] ++ snew). split; [by rewrite <- !app_assoc|].
    by rewrite filter_app, Hnone.
Qed.

(** X26.  [analyzeImages] writes to the console exactly when it fails: a
    run that returns a result logs nothing, and a run that throws logs the
    cause once, with "Failed to get analysis:", as the last thing it does
    before it throws the wrapped error. *)
Theorem analyzeImages_logs_failures_only w user challenge generatedImageBase64
    userPrompt tr :
  let run :=
    analyzeImages w user challenge generatedImageBase64 userPrompt tr in
  exists new,
    snd run = tr ++ new
    /\ (forall v, fst run = Returns v -> filter is_console new = [])
    /\ (forall e,
          fst run = Throws e ->
          exists cause before,
            e = rethrow cause
            /\ new = before ++ [ConsoleError "Failed to get analysis:" cause]
            /\ filter is_console before = []).
Proof.
  simpl.
  destruct (try_block_no_console w user challenge generatedImageBase64
              userPrompt tr) as (new & Htrace & Hnone).
  rewrite analyzeImages_try_catch.
  destruct (try_block _ _ _ _ _ tr) as [[v|cause|] tr']; simpl in *; subst tr'.
  - exists new. split; [done|]. split; [done|]. discriminate.
  - exists (new ++ [ConsoleError "Failed to get analysis:" cause]).
    rewrite app_assoc. split; [done|]. split; [discriminate|].
    intros e [= <-]. by exists cause, new.
  - exists new. split; [done|]. split; discriminate.
Qed.

End AnalysisExtras.
